(** * uci_chess: a shallow embedding of [core.py] and [engine.py]

    The development follows the two source files.  Python strings are
    modelled as [string] (the ASCII range of [str]), Python integers as [Z],
    [dict]s as [gmap], exceptions as an error result, and the engine process
    as a script of the lines it writes to its standard output. *)

From Stdlib Require Import ZArith Ascii String List Bool Lia.
From stdpp Require Import base option list strings gmap pretty.

Local Open Scope string_scope.
Local Open Scope list_scope.
Local Open Scope nat_scope.

(** ** Python [str] operations used by the sources *)

Module PyStr.

(** [str.isspace] on the ASCII range: TAB..CR, FS..US and the blank. *)
Definition is_space (c : ascii) : bool :=
  let n := nat_of_ascii c in
  ((9 <=? n) && (n <=? 13)) || ((28 <=? n) && (n <=? 32)).

Definition is_digit (c : ascii) : bool :=
  let n := nat_of_ascii c in (48 <=? n) && (n <=? 57).

Definition is_alpha (c : ascii) : bool :=
  let n := nat_of_ascii c in
  ((65 <=? n) && (n <=? 90)) || ((97 <=? n) && (n <=? 122)).

(** [\w] on the ASCII range. *)
Definition is_word (c : ascii) : bool :=
  is_alpha c || is_digit c || (nat_of_ascii c =? 95).

Fixpoint lstrip (s : string) : string :=
  match s with
  | String c s' => if is_space c then lstrip s' else s
  | EmptyString => EmptyString
  end.

(** [rstrip] keeps a character when it is not a blank or when something
    that is kept follows it. *)
Fixpoint rstrip (s : string) : string :=
  match s with
  | String c s' =>
      match rstrip s' with
      | EmptyString => if is_space c then EmptyString else String c EmptyString
      | t => String c t
      end
  | EmptyString => EmptyString
  end.

(** [s.strip()] *)
Definition strip (s : string) : string := rstrip (lstrip s).

(** [s.split(sep)] for a one-character separator: empty fields are kept,
    and the empty string splits into one empty field. *)
Fixpoint split (sep : ascii) (s : string) : list string :=
  match s with
  | EmptyString => [EmptyString]
  | String c s' =>
      if Ascii.eqb c sep then EmptyString :: split sep s'
      else match split sep s' with
           | h :: t => String c h :: t
           | [] => [String c EmptyString]
           end
  end.

(** [sep.join(l)] *)
Definition join (sep : string) (l : list string) : string :=
  String.concat sep l.

(** [sub in s] *)
Fixpoint contains (sub s : string) : bool :=
  match s with
  | EmptyString => String.prefix sub EmptyString
  | String _ s' => String.prefix sub s || contains sub s'
  end.

Definition digit_val (c : ascii) : Z := Z.of_nat (nat_of_ascii c) - 48.

(** The digits of an [int] literal: groups of digits, separated by single
    underscores.  [acc] is the value read so far and [after_digit] tells
    whether the previous character was a digit. *)
Fixpoint int_digits (acc : Z) (after_digit : bool) (s : string) : option Z :=
  match s with
  | EmptyString => if after_digit then Some acc else None
  | String c s' =>
      if is_digit c then int_digits (10 * acc + digit_val c) true s'
      else if (nat_of_ascii c =? 95) && after_digit then int_digits acc false s'
      else None
  end.

(** [int(s)] for a [str] argument; [None] stands for [ValueError]. *)
Definition int (s : string) : option Z :=
  match strip s with
  | String "-" d => Z.opp <$> int_digits 0 false d
  | String "+" d => int_digits 0 false d
  | d => int_digits 0 false d
  end.

(** [str(n)] and the formatting of an integer in an f-string. *)
Definition of_int (n : Z) : string := pretty n.

End PyStr.

(** ** The fragment of Python's [re] the three patterns use

    A backtracking matcher in continuation-passing style: alternatives are
    tried in the order [re] tries them, so the first match found is the
    match [re] reports, with the same group spans. *)

Module Re.

Inductive charset : Type :=
| AnyChar                         (* .   (no DOTALL: not a newline) *)
| Space                           (* \s *)
| Word                            (* \w *)
| Digit                           (* \d *)
| OneOf (s : string)              (* the characters listed *)
| Union (a b : charset).          (* [ab] *)

Fixpoint mem (cs : charset) (c : ascii) : bool :=
  match cs with
  | AnyChar => negb (Ascii.eqb c "010")
  | Space => PyStr.is_space c
  | Word => PyStr.is_word c
  | Digit => PyStr.is_digit c
  | OneOf s => existsb (Ascii.eqb c) (list_ascii_of_string s)
  | Union a b => mem a c || mem b c
  end.

Inductive regex : Type :=
| Lit (s : string)                                    (* literal text *)
| Rep (cs : charset) (lo : nat) (hi : option nat) (greedy : bool)
                                                      (* cs{lo,hi} and cs{lo,hi}? *)
| Seq (r1 r2 : regex)
| Alt (r1 r2 : regex)                                 (* r1|r2 *)
| Opt (r : regex)                                     (* (?:r)? *)
| Group (n : nat) (r : regex)                         (* the n-th ( ) *)
| Bol                                                 (* ^ *)
| Eol.                                                (* $ *)

(** The quantifiers of the patterns. *)
Definition star cs := Rep cs 0 None true.             (* cs*  *)
Definition plus cs := Rep cs 1 None true.             (* cs+  *)
Definition plus_lazy cs := Rep cs 1 None false.       (* cs+? *)
Definition one cs := Rep cs 1 (Some 1) true.          (* cs   *)
Definition maybe cs := Rep cs 0 (Some 1) true.        (* cs?  *)
Definition exactly n cs := Rep cs n (Some n) true.    (* cs{n} *)

Fixpoint seq (l : list regex) : regex :=
  match l with
  | [] => Lit ""
  | [r] => r
  | r :: l' => Seq r (seq l')
  end.

(** Spans of the groups that took part in the match, as offsets into the
    subject. *)
Definition spans : Type := gmap nat (nat * nat).

Definition cont : Type := nat -> string -> spans -> option spans.

Definition or_else {A} (x y : option A) : option A :=
  match x with Some _ => x | None => y end.

Fixpoint strip_prefix (p s : string) : option string :=
  match p, s with
  | EmptyString, _ => Some s
  | String a p', String b s' => if Ascii.eqb a b then strip_prefix p' s' else None
  | String _ _, EmptyString => None
  end.

Definition hi_zero (hi : option nat) : bool :=
  match hi with Some 0 => true | _ => false end.

(** [cs{lo,hi}]: the greedy form takes a character when it can and gives
    it back on failure; the lazy form stops as soon as the rest matches. *)
Fixpoint rep (cs : charset) (greedy : bool) (lo : nat) (hi : option nat)
    (pos : nat) (s : string) (g : spans) (k : cont) : option spans :=
  let stop := if (lo =? 0)%nat then k pos s g else None in
  if hi_zero hi then stop else
  match s with
  | String c s' =>
      if mem cs c then
        let more := rep cs greedy (Nat.pred lo) (Nat.pred <$> hi) (S pos) s' g k in
        if greedy then or_else more stop else or_else stop more
      else stop
  | EmptyString => stop
  end.

Definition at_end (s : string) : bool :=
  match s with
  | EmptyString => true
  | String c EmptyString => Ascii.eqb c "010"
  | _ => false
  end.

Fixpoint run (r : regex) (pos : nat) (s : string) (g : spans) (k : cont)
    : option spans :=
  match r with
  | Lit l =>
      match strip_prefix l s with
      | Some s' => k (pos + String.length l) s' g
      | None => None
      end
  | Rep cs lo hi greedy => rep cs greedy lo hi pos s g k
  | Seq r1 r2 => run r1 pos s g (fun pos' s' g' => run r2 pos' s' g' k)
  | Alt r1 r2 => or_else (run r1 pos s g k) (run r2 pos s g k)
  | Opt r1 => or_else (run r1 pos s g k) (k pos s g)
  | Group n r1 => run r1 pos s g (fun pos' s' g' => k pos' s' (<[n := (pos, pos')]> g'))
  | Bol => if (pos =? 0)%nat then k pos s g else None
  | Eol => if at_end s then k pos s g else None
  end.

(** A match object: the subject and the spans of its groups. *)
Record match_object : Type := { subject : string; group_spans : spans }.

(** [pattern.match(s)]: anchored at the start of [s], not at its end. *)
Definition match_ (r : regex) (s : string) : option match_object :=
  (fun g => {| subject := s; group_spans := g |}) <$>
  run r 0 s ∅ (fun pos _ g => Some (<[0 := (0, pos)]> g)).

(** [m.group(n)]: [None] for a group that did not take part. *)
Definition group (m : match_object) (n : nat) : option string :=
  (fun '(a, b) => String.substring a (b - a) (subject m)) <$> group_spans m !! n.

(** *** [re.compile]: from the text of a pattern to its syntax tree

    The reader covers the constructs of the three patterns: literal
    characters, [.], the classes [\s] [\w] [\d], sets without ranges,
    groups (numbered by their opening parenthesis) and [(?: )], [|], [^],
    [$], and the quantifiers [*] [+] [?] [{n}] with their lazy forms on a
    single-character matcher and [?] on a group.  Anything else is
    refused with [None]. *)

Definition escape (c : ascii) : option charset :=
  if Ascii.eqb c "s" then Some Space
  else if Ascii.eqb c "w" then Some Word
  else if Ascii.eqb c "d" then Some Digit
  else None.

Definition add_class (acc : option charset) (cs : charset) : charset :=
  match acc with None => cs | Some a => Union a cs end.

Definition add_char (acc : option charset) (c : ascii) : charset :=
  let one := String c EmptyString in
  match acc with
  | None => OneOf one
  | Some (OneOf l) => OneOf (l +:+ one)
  | Some (Union a (OneOf l)) => Union a (OneOf (l +:+ one))
  | Some a => Union a (OneOf one)
  end.

(** The body of a set, after its opening bracket. *)
Fixpoint read_set (acc : option charset) (s : string) : option (charset * string) :=
  match s with
  | EmptyString => None
  | String c s' =>
      if Ascii.eqb c "]" then (fun cs => (cs, s')) <$> acc
      else if Ascii.eqb c "\" then
        match s' with
        | String e s'' => cs ← escape e; read_set (Some (add_class acc cs)) s''
        | EmptyString => None
        end
      else if Ascii.eqb c "-" || Ascii.eqb c "^" || Ascii.eqb c "[" then None
      else read_set (Some (add_char acc c)) s'
  end.

Fixpoint read_nat (acc : nat) (s : string) : nat * string :=
  match s with
  | String c s' =>
      if PyStr.is_digit c then read_nat (10 * acc + (nat_of_ascii c - 48)) s'
      else (acc, s)
  | EmptyString => (acc, s)
  end.

(** What a quantifier can follow. *)
Inductive atom : Type :=
| AChar (c : ascii)
| ASet (cs : charset)
| ARegex (r : regex).

Definition read_lazy (s : string) : bool * string :=
  match s with
  | String c s' => if Ascii.eqb c "?" then (false, s') else (true, s)
  | EmptyString => (true, s)
  end.

Definition repeat_atom (a : atom) (lo : nat) (hi : option nat) (s : string)
    : option (regex * string) :=
  let '(greedy, s') := read_lazy s in
  match a with
  | AChar c => Some (Rep (OneOf (String c EmptyString)) lo hi greedy, s')
  | ASet cs => Some (Rep cs lo hi greedy, s')
  | ARegex r =>
      match lo, hi, greedy with
      | 0, Some 1, true => Some (Opt r, s')
      | _, _, _ => None
      end
  end.

Definition read_quantifier (a : atom) (s : string) : option (regex * string) :=
  let plain :=
    match a with
    | AChar c => Lit (String c EmptyString)
    | ASet cs => one cs
    | ARegex r => r
    end in
  match s with
  | String c s' =>
      if Ascii.eqb c "*" then repeat_atom a 0 None s'
      else if Ascii.eqb c "+" then repeat_atom a 1 None s'
      else if Ascii.eqb c "?" then repeat_atom a 0 (Some 1) s'
      else if Ascii.eqb c "{" then
        let '(n, s1) := read_nat 0 s' in
        match s1 with
        | String d s2 => if Ascii.eqb d "}" then repeat_atom a n (Some n) s2 else None
        | EmptyString => None
        end
      else Some (plain, s)
  | EmptyString => Some (plain, s)
  end.

(** Sequencing, with adjacent literals joined. *)
Definition cons_seq (r rs : regex) : regex :=
  match rs with
  | Lit EmptyString => r
  | _ =>
      match r, rs with
      | Lit a, Lit b => Lit (a +:+ b)
      | Lit a, Seq (Lit b) t => Seq (Lit (a +:+ b)) t
      | _, _ => Seq r rs
      end
  end.

Definition closes (s : string) : option string :=
  match s with
  | String c s' => if Ascii.eqb c ")" then Some s' else None
  | EmptyString => None
  end.

Definition is_special (c : ascii) : bool :=
  existsb (Ascii.eqb c) (list_ascii_of_string "*+?{}|)]").

(** The three levels of the grammar; [n] is the number of the next group. *)
Fixpoint read_alt (fuel : nat) (s : string) (n : nat) {struct fuel}
    : option (regex * string * nat) :=
  match fuel with
  | 0 => None
  | S fuel' =>
      '(r1, s1, n1) ← read_seq fuel' s n;
      match s1 with
      | String "|" s2 =>
          '(r2, s3, n2) ← read_alt fuel' s2 n1; Some (Alt r1 r2, s3, n2)
      | _ => Some (r1, s1, n1)
      end
  end
with read_seq (fuel : nat) (s : string) (n : nat) {struct fuel}
    : option (regex * string * nat) :=
  match fuel with
  | 0 => None
  | S fuel' =>
      match s with
      | EmptyString => Some (Lit EmptyString, s, n)
      | String c _ =>
          if Ascii.eqb c "|" || Ascii.eqb c ")" then Some (Lit EmptyString, s, n)
          else
            '(r, s1, n1) ← read_item fuel' s n;
            '(rs, s2, n2) ← read_seq fuel' s1 n1;
            Some (cons_seq r rs, s2, n2)
      end
  end
with read_item (fuel : nat) (s : string) (n : nat) {struct fuel}
    : option (regex * string * nat) :=
  match fuel with
  | 0 => None
  | S fuel' =>
      match s with
      | EmptyString => None
      | String "(" (String "?" (String ":" s1)) =>
          '(r, s2, n1) ← read_alt fuel' s1 n;
          s3 ← closes s2;
          '(q, s4) ← read_quantifier (ARegex r) s3; Some (q, s4, n1)
      | String "(" s1 =>
          '(r, s2, n1) ← read_alt fuel' s1 (S n);
          s3 ← closes s2;
          '(q, s4) ← read_quantifier (ARegex (Group n r)) s3; Some (q, s4, n1)
      | String "[" s1 =>
          '(cs, s2) ← read_set None s1;
          '(q, s3) ← read_quantifier (ASet cs) s2; Some (q, s3, n)
      | String "\" (String e s1) =>
          cs ← escape e;
          '(q, s2) ← read_quantifier (ASet cs) s1; Some (q, s2, n)
      | String "." s1 =>
          '(q, s2) ← read_quantifier (ASet AnyChar) s1; Some (q, s2, n)
      | String "^" s1 => Some (Bol, s1, n)
      | String "$" s1 => Some (Eol, s1, n)
      | String c s1 =>
          if is_special c || Ascii.eqb c "\" then None
          else '(q, s2) ← read_quantifier (AChar c) s1; Some (q, s2, n)
      end
  end.

Definition compile (pattern : string) : option regex :=
  match read_alt (4 * String.length pattern + 4) pattern 1 with
  | Some (r, EmptyString, _) => Some r
  | _ => None
  end.

End Re.

(** ** The three patterns

    Each pattern is given as the text [re.compile] receives and as the
    syntax tree the matcher runs. *)

Definition RE_OPTIONS_LIST_pattern : string :=
  "^option\s+name\s([\w\s]+)\stype\s([\w\s]+?)(\sdefault\s?.*)?$".

Definition RE_OPTIONS_LIST : Re.regex :=
  Re.seq [ Re.Bol; Re.Lit "option"; Re.plus Re.Space; Re.Lit "name"; Re.one Re.Space;
           Re.Group 1 (Re.plus (Re.Union Re.Word Re.Space));
           Re.one Re.Space; Re.Lit "type"; Re.one Re.Space;
           Re.Group 2 (Re.plus_lazy (Re.Union Re.Word Re.Space));
           Re.Opt (Re.Group 3 (Re.seq [ Re.one Re.Space; Re.Lit "default";
                                        Re.maybe Re.Space; Re.star Re.AnyChar ]));
           Re.Eol ].

Definition RE_PARSE_INFO_pattern : string :=
  "info (.*)score ((?:cp|mate) -?\d+)(.*)\s+pv\s+(.*)".

Definition RE_PARSE_INFO : Re.regex :=
  Re.seq [ Re.Lit "info "; Re.Group 1 (Re.star Re.AnyChar); Re.Lit "score ";
           Re.Group 2 (Re.seq [ Re.Alt (Re.Lit "cp") (Re.Lit "mate"); Re.Lit " ";
                                Re.maybe (Re.OneOf "-"); Re.plus Re.Digit ]);
           Re.Group 3 (Re.star Re.AnyChar);
           Re.plus Re.Space; Re.Lit "pv"; Re.plus Re.Space;
           Re.Group 4 (Re.star Re.AnyChar) ].

Definition RE_BEST_MOVE_pattern : string :=
  "bestmove\s*([abcdefgh12345678]{4})(?:\s*ponder\s*([abcdefgh12345678]{4}))?".

Definition RE_BEST_MOVE : Re.regex :=
  Re.seq [ Re.Lit "bestmove"; Re.star Re.Space;
           Re.Group 1 (Re.exactly 4 (Re.OneOf "abcdefgh12345678"));
           Re.Opt (Re.seq [ Re.star Re.Space; Re.Lit "ponder"; Re.star Re.Space;
                            Re.Group 2 (Re.exactly 4 (Re.OneOf "abcdefgh12345678")) ]) ].

(** ** Exceptions and the state-and-exception monad *)

Inductive exn : Type :=
| IndexError
| KeyError (key : string)
| ValueError
| TypeError
| AttributeError
| FileNotFoundError
| TimeoutError.

(** [OutOfFuel] is not a Python outcome: it is what a loop of the model
    returns when its fuel is spent.  Every loop below reads one line per
    turn and is given more fuel than the lines the engine still has to
    deliver; [is_ready_spec], [handshake_spec], [set_position_spec] and
    [next_never_out_of_fuel] show that it is never returned. *)
Inductive outcome (A : Type) : Type :=
| Return (a : A)
| Raise (e : exn)
| OutOfFuel.
Arguments Return {A} a.
Arguments Raise {A} e.
Arguments OutOfFuel {A}.

(** The result of code without loops: a value or an exception. *)
Inductive result (A : Type) : Type :=
| Ok (a : A)
| Error (e : exn).
Arguments Ok {A} a.
Arguments Error {A} e.

(** A computation over the state [S]: the state reached is kept when an
    exception is raised, as in Python. *)
Definition M (S A : Type) : Type := S -> outcome A * S.

#[export] Instance M_ret {S} : MRet (M S) := fun A a s => (Return a, s).
#[export] Instance M_bind {S} : MBind (M S) := fun A B f m s =>
  match m s with
  | (Return a, s') => f a s'
  | (Raise e, s') => (Raise e, s')
  | (OutOfFuel, s') => (OutOfFuel, s')
  end.

Definition raise {S A} (e : exn) : M S A := fun s => (Raise e, s).
Definition out_of_fuel {S A} : M S A := fun s => (OutOfFuel, s).
Definition read {S} : M S S := fun s => (Return s, s).
Definition modify {S} (f : S -> S) : M S unit := fun s => (Return tt, f s).

(** ** core.py *)

Definition nl : string := String "010" EmptyString.

(** The engine process as the session sees it: [stdout] is the script of
    the engine, the lines (without their terminator) that it writes during
    each successive 0.1 s sleep of the client; [stdin] collects the
    arguments of the [write] calls on its input pipe. *)
Record Popen : Type := { stdout : list (list string); stdin : list string }.

(** [out.readline()] before the end of the stream: the line with its
    terminator, never the empty string. *)
Definition readline (l : string) : string := l +:+ nl.

(** What [_read_output_to_queue], running in the reader thread, puts on
    the queue for the lines [chunk]. *)
Definition _read_output_to_queue (chunk : list string) (output_queue : list string)
    : list string :=
  output_queue ++ map (fun l => PyStr.strip (readline l)) chunk.

Module EngineCore.

(** One entry of [available_options]. *)
Record option_info : Type := { type : option string; default : option string }.

(** An instance.  [available_options] is [None] until [__init__] assigns
    the attribute. *)
Record t : Type := {
  timeout : nat;
  engine : Popen;
  _output_queue : list string;
  available_options : option (gmap (option string) option_info)
}.

(** What a method sees: its instance, and [output_buffer], which is an
    attribute of the class - no method assigns [self.output_buffer], so
    every instance reads and mutates the one list of the class. *)
Record state : Type := { output_buffer : list string; self : t }.

Definition set_output_buffer (b : list string) (s : state) : state :=
  {| output_buffer := b; self := self s |}.
Definition set_engine (e : Popen) (c : t) : t :=
  {| timeout := timeout c; engine := e; _output_queue := _output_queue c;
     available_options := available_options c |}.
Definition set_output_queue (q : list string) (c : t) : t :=
  {| timeout := timeout c; engine := engine c; _output_queue := q;
     available_options := available_options c |}.
Definition set_available_options (o : gmap (option string) option_info) (c : t) : t :=
  {| timeout := timeout c; engine := engine c; _output_queue := _output_queue c;
     available_options := Some o |}.
Definition on_self (f : t -> t) (s : state) : state :=
  {| output_buffer := output_buffer s; self := f (self s) |}.

(** [sleep(0.1)]: meanwhile the reader thread queues the next chunk of
    the script. *)
Definition reader_tick (c : t) : t :=
  match stdout (engine c) with
  | chunk :: rest =>
      set_output_queue (_read_output_to_queue chunk (_output_queue c))
        (set_engine {| stdout := rest; stdin := stdin (engine c) |} c)
  | [] => c
  end.

Definition sleep : M state unit := modify (on_self reader_tick).

Definition _move_from_queue_to_buffer : M state unit :=
  modify (fun s =>
    {| output_buffer := output_buffer s ++ _output_queue (self s);
       self := set_output_queue [] (self s) |}).

(** The number of 0.1 s polls that fit in the timeout: the clock is
    read as advancing by the sleep alone. *)
Definition polls (c : t) : nat := 10 * timeout c.

(** [while <short> and timer() - start_time < self.timeout: ...] *)
Fixpoint wait_loop (short : list string -> bool) (remaining : nat) : M state unit :=
  match remaining with
  | 0 => mret tt
  | S remaining' =>
      s ← read;
      if short (output_buffer s)
      then sleep;; _move_from_queue_to_buffer;; wait_loop short remaining'
      else mret tt
  end.

Definition _wait_output_buffer (index_to_view : option nat) : M state unit :=
  s ← read;
  match index_to_view with
  | Some i => wait_loop (fun b => length b <=? i) (polls (self s))
  | None => wait_loop (fun b => length b =? 0) (polls (self s))
  end.

Definition put (message : string) : M state unit :=
  modify (on_self (fun c =>
    set_engine {| stdout := stdout (engine c);
                  stdin := stdin (engine c) ++ [message +:+ nl] |} c)).

Definition get : M state string :=
  _wait_output_buffer None;;
  s ← read;
  match output_buffer s with
  | result :: rest => modify (set_output_buffer rest);; mret result
  | [] => raise IndexError                    (* pop from empty list *)
  end.

Definition view (index_to_view : nat) : M state string :=
  _wait_output_buffer (Some index_to_view);;
  s ← read;
  match output_buffer s !! index_to_view with
  | Some result => mret result
  | None => raise IndexError                  (* list index out of range *)
  end.

(** The lines the session can still receive: buffered, queued, or yet to
    be written by the engine. *)
Definition incoming (s : state) : list string :=
  output_buffer s ++ _read_output_to_queue (concat (stdout (engine (self s))))
                       (_output_queue (self s)).

Definition fuel (s : state) : nat := S (length (incoming s)).

Definition is_ready_loop : nat -> string -> M state bool :=
  fix loop (n : nat) (resp : string) : M state bool :=
    match n with
    | 0 => out_of_fuel
    | S n' =>
        if String.eqb resp "readyok" then mret true
        else resp' ← get; loop n' resp'
    end.

Definition is_ready : M state bool :=
  put "isready";;
  resp ← get;
  s ← read;
  is_ready_loop (fuel s) resp.

Definition stop : M state unit := put "stop".

(** The body of the handshake loop: one entry per line that matches. *)
Definition option_entry (resp : string)
    : option (option string * option_info) :=
  (fun matched =>
     let field n :=
       match Re.group matched n with
       | Some (String c g) => Some (PyStr.strip (String c g))
       | _ => None
       end in
     (field 1, {| type := field 2; default := field 3 |}))
  <$> Re.match_ RE_OPTIONS_LIST resp.

Definition handshake_loop
    : nat -> string -> list (option string * option_info) ->
      M state (list (option string * option_info)) :=
  fix loop n resp available_options :=
    match n with
    | 0 => out_of_fuel
    | S n' =>
        if String.eqb resp "uciok" then mret available_options
        else
          let available_options' :=
            match option_entry resp with
            | Some ao => available_options ++ [ao]
            | None => available_options
            end in
          resp' ← get; loop n' resp' available_options'
    end.

(** [{ao["name"]: {...} for ao in available_options}]: a later entry of
    the same name replaces an earlier one. *)
Definition options_dict (l : list (option string * option_info))
    : gmap (option string) option_info :=
  foldl (fun d ao => <[ao.1 := ao.2]> d) ∅ l.

(** The part of [__init__] after the reader thread is started. *)
Definition handshake : M state unit :=
  put "uci";;
  resp ← get;
  s ← read;
  available_options ← handshake_loop (fuel s) resp [];
  modify (on_self (set_available_options (options_dict available_options))).

(** The instance as it is when the handshake starts. *)
Definition spawn (timeout : nat) (script : list (list string)) : t :=
  {| timeout := timeout; engine := {| stdout := script; stdin := [] |};
     _output_queue := []; available_options := None |}.

(** [EngineCore(engine_binary_path, timeout)], over the buffer of the
    class.  [path_exists] is the answer of [engine_binary_path.exists()]
    and [script] the behaviour of the binary at that path. *)
Definition __init__ (path_exists : bool) (timeout : nat) (script : list (list string))
    : M (list string) t :=
  fun output_buffer =>
    if path_exists then
      let '(r, s) := handshake {| output_buffer := output_buffer;
                                  self := spawn timeout script |} in
      (match r with
       | Return _ => Return (self s)
       | Raise e => Raise e
       | OutOfFuel => OutOfFuel
       end, EngineCore.output_buffer s)
    else (Raise FileNotFoundError, output_buffer).

End EngineCore.

(** ** engine.py *)

(** The values held by the dictionaries that [parse_info] builds. *)
#[warnings="-register-all"]
Inductive value : Type :=
| VNone
| VInt (n : Z)
| VStr (s : string)
| VList (l : list string)
| VDict (d : gmap string value).

(** The dictionary that [go] yields in structured mode. *)
Record SearchSnapshot : Type := {
  next_move : value;
  score : value;
  lines : list (gmap string value);
  bestmove : option string;
  ponder : option string
}.

Module UCIEngine.

(** The code that touches no state: a value or an exception. *)
Definition pure_outcome {S A} (r : result A) : M S A :=
  fun s => (match r with Ok a => Return a | Error e => Raise e end, s).

Definition or_raise {A} (e : exn) (o : option A) : result A :=
  match o with Some a => Ok a | None => Error e end.

Definition obind {A B} (r : result A) (f : A -> result B) : result B :=
  match r with
  | Ok a => f a
  | Error e => Error e
  end.

(** [for i in range(0, len(other_tmp), 2):
       tmp_output[other_tmp[i]] = other_tmp[i + 1]] *)
Fixpoint store_pairs (other_tmp : list string) (tmp_output : gmap string value)
    : result (gmap string value) :=
  match other_tmp with
  | [] => Ok tmp_output
  | [_] => Error IndexError
  | k :: v :: rest => store_pairs rest (<[k := VStr v]> tmp_output)
  end.

(** [int(x)] on a value. *)
Definition int_of_value (x : value) : result Z :=
  match x with
  | VStr s => or_raise ValueError (PyStr.int s)
  | VInt n => Ok n
  | _ => Error TypeError
  end.

(** [for key in [...]: tmp_output[key] = int(tmp_output[key])] *)
Fixpoint coerce_keys (keys : list string) (tmp_output : gmap string value)
    : result (gmap string value) :=
  match keys with
  | [] => Ok tmp_output
  | key :: keys' =>
      obind (or_raise (KeyError key) (tmp_output !! key)) (fun x =>
      obind (int_of_value x) (fun n =>
      coerce_keys keys' (<[key := VInt n]> tmp_output)))
  end.

(** [tmp_output["score"][k] = n] *)
Definition store_score (k : string) (n : Z) (tmp_output : gmap string value)
    : result (gmap string value) :=
  match tmp_output !! "score" with
  | Some (VDict d) => Ok (<["score" := VDict (<[k := VInt n]> d)]> tmp_output)
  | Some _ => Error TypeError
  | None => Error (KeyError "score")
  end.

Definition parse_info (text : string) : result (option (gmap string value)) :=
  match Re.match_ RE_PARSE_INFO text with
  | None => Ok None
  | Some match_ =>
      let group n := or_raise AttributeError (Re.group match_ n) in
      obind (group 2) (fun g2 =>
      obind (group 4) (fun g4 =>
      obind (group 1) (fun g1 =>
      obind (group 3) (fun g3 =>
      let score_tmp := PyStr.split " " g2 in
      let pv_tmp := PyStr.split " " g4 in
      let other_tmp :=
        PyStr.split " " (PyStr.strip g1 +:+ " " +:+ PyStr.strip g3) in
      obind (or_raise IndexError (pv_tmp !! 0)) (fun pv0 =>
      let tmp_output : gmap string value :=
        {[ "score" := VDict {[ "mate" := VNone; "cp" := VNone ]};
           "moves" := VList pv_tmp;
           "next_move" := VStr pv0 ]} in
      obind (or_raise IndexError (score_tmp !! 0)) (fun score0 =>
      obind (or_raise IndexError (score_tmp !! 1)) (fun score1 =>
      obind (or_raise ValueError (PyStr.int score1)) (fun n =>
      obind (store_score score0 n tmp_output) (fun tmp_output =>
      obind (store_pairs other_tmp tmp_output) (fun tmp_output =>
      obind (coerce_keys ["depth"; "seldepth"; "multipv"; "time"] tmp_output)
        (fun tmp_output => Ok (Some tmp_output))))))))))))
  end.

(** An instance; [engine] is the [EngineCore] it owns. *)
Record t : Type := {
  timeout : nat;
  engine : EngineCore.t;
  default_option_override : option (list (string * string));
  current_multi_pv : Z
}.

(** What a method sees: its instance and the buffer of the class
    [EngineCore].  (The class attribute [UCIEngine.output_buffer] of
    engine.py is read by nothing and is left out.) *)
Record state : Type := { output_buffer : list string; self : t }.

Definition set_engine (e : EngineCore.t) (u : t) : t :=
  {| timeout := timeout u; engine := e;
     default_option_override := default_option_override u;
     current_multi_pv := current_multi_pv u |}.
Definition set_current_multi_pv (n : Z) (u : t) : t :=
  {| timeout := timeout u; engine := engine u;
     default_option_override := default_option_override u;
     current_multi_pv := n |}.
Definition on_self (f : t -> t) (s : state) : state :=
  {| output_buffer := output_buffer s; self := f (self s) |}.

Definition core_state (s : state) : EngineCore.state :=
  {| EngineCore.output_buffer := output_buffer s;
     EngineCore.self := engine (self s) |}.

(** [self.engine.m(...)]: run a method of the owned [EngineCore]. *)
Definition on_engine {A} (m : M EngineCore.state A) : M state A :=
  fun s =>
    let '(r, c) := m (core_state s) in
    (r, {| output_buffer := EngineCore.output_buffer c;
           self := set_engine (EngineCore.self c) (self s) |}).

Definition _ucinewgame : M state unit :=
  on_engine (EngineCore.put "ucinewgame");;
  on_engine EngineCore.is_ready;;
  mret tt.

Definition set_position (fen : option string) (moves : option (list string))
    : M state unit :=
  _ucinewgame;;
  let position_str :=
    match fen with
    | None => "startpos"
    | Some fen => "fen " +:+ fen
    end in
  let moves_str :=
    match moves with
    | None => ""
    | Some moves => "moves " +:+ PyStr.join " " moves
    end in
  let command_str := "position " +:+ position_str +:+ " " +:+ moves_str in
  on_engine (EngineCore.put command_str).

(** [if option] on a [str | None]: false for [None] and for the empty
    string. *)
Definition truthy (option : option string) : bool :=
  match option with
  | Some (String _ _) => true
  | _ => false
  end.

Definition set_option (name : string) (option : option string) : M state unit :=
  s ← read;
  match EngineCore.available_options (engine (self s)) with
  | None => raise AttributeError
  | Some available_options =>
      match available_options !! Some name with
      | None => mret tt                       (* logging.warning only *)
      | Some _ =>
          let value_str :=
            if truthy option then "value " +:+ default "" option else "" in
          let command_str := "setoption name " +:+ name +:+ " " +:+ value_str in
          on_engine (EngineCore.put command_str)
      end
  end.

Definition set_multi_pv (value : Z) : M state unit :=
  set_option "MultiPV" (Some (PyStr.of_int value));;
  modify (on_self (set_current_multi_pv value)).

(** The arguments of [go]; [kwargs] holds the extra keyword arguments in
    call order, each value as the text its formatting gives. *)
Record go_args : Type := {
  depth : option Z;
  wtime : option Z;
  btime : option Z;
  winc : option Z;
  binc : option Z;
  movetime : option Z;
  searchmoves : option (list string);
  nodes : option Z;
  raw_output : bool;
  kwargs : list (string * string)
}.

Definition int_param (name : string) (x : option Z) : string :=
  match x with
  | Some n => name +:+ " " +:+ PyStr.of_int n
  | None => ""
  end.

Definition nonempty (p : string) : bool :=
  match p with EmptyString => false | _ => true end.

(** The command line that the body of [go] assembles. *)
Definition go_command (a : go_args) : string :=
  let depth_str :=
    match depth a with
    | None => "infinite"
    | Some d => "depth " +:+ PyStr.of_int d
    end in
  let searchmoves_str :=
    match searchmoves a with
    | Some l => "searchmoves " +:+ PyStr.join " " l
    | None => ""
    end in
  let param_list :=
    [ depth_str; int_param "wtime" (wtime a); int_param "btime" (btime a);
      int_param "winc" (winc a); int_param "binc" (binc a);
      int_param "movetime" (movetime a); searchmoves_str;
      int_param "nodes" (nodes a) ]
    ++ map (fun kv => kv.1 +:+ " " +:+ kv.2) (kwargs a) in
  "go " +:+ PyStr.join " " (List.filter nonempty param_list).

(** What the generator yields: a line in raw mode, a snapshot otherwise. *)
Inductive item : Type :=
| RawLine (resp : string)
| Snapshot (output : SearchSnapshot).

(** The generator object that a call of [go] returns: not yet started,
    suspended at the [yield] of one of the two loops with the locals the
    loop condition reads, or finished. *)
Inductive generator : Type :=
| Created (a : go_args)
| SuspendedRaw (resp : string)
| SuspendedStructured (continue_flg : bool) (next_resp : option string)
| Finished.

(** Calling [go] runs none of its body: it only makes the generator. *)
Definition go (a : go_args) : M state generator := mret (Created a).

(** [while "bestmove" not in resp: resp = self.engine.get(); yield resp] *)
Definition raw_loop (resp : string) : M state (option item * generator) :=
  if PyStr.contains "bestmove" resp then mret (None, Finished)
  else
    resp' ← on_engine EngineCore.get;
    mret (Some (RawLine resp'), SuspendedRaw resp').

(** [resp = get(); tmp = parse_info(resp);
     while not tmp: resp = get(); tmp = parse_info(resp)] *)
Definition read_info : nat -> string -> M state (gmap string value) :=
  fix loop n resp :=
    match n with
    | 0 => out_of_fuel
    | S n' =>
        tmp_parsed_info ← pure_outcome (parse_info resp);
        match tmp_parsed_info with
        | Some info => mret info
        | None => resp' ← on_engine EngineCore.get; loop n' resp'
        end
    end.

(** [for i in range(...): ...; lines_list.append(tmp_parsed_info)] *)
Fixpoint collect (count : nat) (lines_list : list (gmap string value))
    : M state (list (gmap string value)) :=
  match count with
  | 0 => mret lines_list
  | S count' =>
      resp ← on_engine EngineCore.get;
      s ← read;
      tmp_parsed_info ← read_info (EngineCore.fuel (core_state s)) resp;
      collect count' (lines_list ++ [tmp_parsed_info])
  end.

(** [match = self.RE_BEST_MOVE.match(resp)] and the two groups that
    [go] copies into the snapshot; [match.group] on [None] raises
    [AttributeError]. *)
Definition best_move (resp : string) : result (option string * option string) :=
  match Re.match_ RE_BEST_MOVE resp with
  | Some match_ => Ok (Re.group match_ 1, Re.group match_ 2)
  | None => Error AttributeError
  end.

(** One turn of [while continue_flg:], up to its [yield]. *)
Definition structured_loop (continue_flg : bool) : M state (option item * generator) :=
  if negb continue_flg then mret (None, Finished)
  else
    s ← read;
    lines_list ← collect (Z.to_nat (current_multi_pv (self s))) [];
    first ← pure_outcome (or_raise IndexError (lines_list !! 0));
    next_move ← pure_outcome (or_raise (KeyError "next_move") (first !! "next_move"));
    score ← pure_outcome (or_raise (KeyError "score") (first !! "score"));
    next_resp ← on_engine (EngineCore.view 0);
    if PyStr.contains "bestmove" next_resp then
      resp ← on_engine EngineCore.get;
      best ← pure_outcome (best_move resp);
      mret (Some (Snapshot {| next_move := next_move; score := score;
                              lines := lines_list;
                              bestmove := best.1; ponder := best.2 |}),
            SuspendedStructured false (Some next_resp))
    else
      mret (Some (Snapshot {| next_move := next_move; score := score;
                              lines := lines_list;
                              bestmove := None; ponder := None |}),
            SuspendedStructured true (Some next_resp)).

(** [next(g)]: run the body up to the next [yield].  [Return (Some x, g')]
    is a yield of [x], [Return (None, Finished)] is [StopIteration]; after
    an exception the generator is finished. *)
Definition next (g : generator) : M state (option item * generator) :=
  match g with
  | Created a =>
      on_engine (EngineCore.put (go_command a));;
      if raw_output a then raw_loop "" else structured_loop true
  | SuspendedRaw resp => raw_loop resp
  | SuspendedStructured continue_flg _ => structured_loop continue_flg
  | Finished => mret (None, Finished)
  end.

(** [UCIEngine(engine_binary_path, options_override, timeout)] *)
Definition __init__ (path_exists : bool) (options_override : option (list (string * string)))
    (timeout : nat) (script : list (list string)) : M (list string) t :=
  fun output_buffer =>
    if path_exists then
      match EngineCore.__init__ path_exists timeout script output_buffer with
      | (Return engine, output_buffer') =>
          let u := {| timeout := timeout; engine := engine;
                      default_option_override := options_override;
                      current_multi_pv := 1 |} in
          let '(r, s) :=
            mapM (fun kv => set_option kv.1 (Some kv.2)) (default [] options_override)
              {| output_buffer := output_buffer'; self := u |} in
          (match r with
           | Return _ => Return (self s)
           | Raise e => Raise e
           | OutOfFuel => OutOfFuel
           end, UCIEngine.output_buffer s)
      | (Raise e, output_buffer') => (Raise e, output_buffer')
      | (OutOfFuel, output_buffer') => (OutOfFuel, output_buffer')
      end
    else (Raise FileNotFoundError, output_buffer).

End UCIEngine.

(** ** Several sessions in one program

    The program state: the one [output_buffer] list of the class
    [EngineCore], and the instances made so far.  A handle is the position
    of an instance. *)

Module Program.

Record t : Type := {
  EngineCore_output_buffer : list string;
  instances : list EngineCore.t
}.

Definition start : t := {| EngineCore_output_buffer := []; instances := [] |}.

(** [EngineCore(path, timeout)]: the new instance runs its handshake on
    the buffer of the class. *)
Definition create (path_exists : bool) (timeout : nat) (script : list (list string))
    : M t nat :=
  fun p =>
    match EngineCore.__init__ path_exists timeout script (EngineCore_output_buffer p) with
    | (Return c, b) =>
        (Return (length (instances p)),
         {| EngineCore_output_buffer := b; instances := instances p ++ [c] |})
    | (Raise e, b) =>
        (Raise e, {| EngineCore_output_buffer := b; instances := instances p |})
    | (OutOfFuel, b) =>
        (OutOfFuel, {| EngineCore_output_buffer := b; instances := instances p |})
    end.

(** [x.m(...)] for the instance [x] of handle [i]. *)
Definition call {A} (i : nat) (m : M EngineCore.state A) : M t A :=
  fun p =>
    match instances p !! i with
    | Some c =>
        let '(r, s) := m {| EngineCore.output_buffer := EngineCore_output_buffer p;
                            EngineCore.self := c |} in
        (r, {| EngineCore_output_buffer := EngineCore.output_buffer s;
               instances := <[i := EngineCore.self s]> (instances p) |})
    | None => (Raise AttributeError, p)
    end.

(** [x.output_buffer] for the instance of handle [i]. *)
Definition output_buffer_of (i : nat) (p : t) : option (list string) :=
  (fun _ => EngineCore_output_buffer p) <$> instances p !! i.

End Program.

(** ** Test harness *)

(** [n] successive calls of [get], collecting what they return. *)
Fixpoint takes (n : nat) : M EngineCore.state (list string) :=
  match n with
  | 0 => mret []
  | S n' => x ← EngineCore.get; xs ← takes n'; mret (x :: xs)
  end.

(** The trimmed form of the lines a script emits. *)
Definition trimmed (emitted : list string) : list string :=
  map (fun l => PyStr.strip (readline l)) emitted.

(** The commands a session has sent: the texts written to the input pipe
    of its engine. *)
Definition sent (s : EngineCore.state) : list string :=
  stdin (EngineCore.engine (EngineCore.self s)).

Definition usent (s : UCIEngine.state) : list string :=
  sent (UCIEngine.core_state s).

(** ** The vocabulary of the statements *)

(** A computation [preserves] a projection of the state when it leaves
    it as it was, whatever the outcome. *)
Definition preserves {S X A} (f : S -> X) (m : M S A) : Prop :=
  forall s, f (m s).2 = f s.

(** A computation is [total] when its fuel is never spent. *)
Definition total {S A} (m : M S A) : Prop := forall s, (m s).1 <> OutOfFuel.

Section CoreVocabulary.
Import EngineCore.

(** The part of a session that reading leaves alone. *)
Definition frame (s : state) : nat * list string * option (gmap (option string) option_info) :=
  (timeout (self s), stdin (engine (self s)), available_options (self s)).

(** The bursts of output that the engine has yet to write. *)
Definition pending_chunks (s : state) : nat := length (stdout (engine (self s))).

(** One turn of the wait loop: the sleep and the draining of the queue. *)
Definition poll (s : state) : state :=
  (_move_from_queue_to_buffer (sleep s).2).2.

(** [self.available_options] *)
Definition opts (s : state) : option (gmap (option string) option_info) :=
  available_options (self s).

(** The entries collected so far, after the handshake loop saw [resp]. *)
Definition add_entry (resp : string) (acc : list (option string * option_info))
    : list (option string * option_info) :=
  match option_entry resp with
  | Some ao => acc ++ [ao]
  | None => acc
  end.

Definition declared_options : gmap (option string) option_info :=
  {[ Some "Hash" := {| type := Some "spin"; default := Some "default 16" |};
     Some "MultiPV" := {| type := Some "spin"; default := Some "default 1" |} ]}.

End CoreVocabulary.

Section ClientVocabulary.
Import UCIEngine.

(** [self.engine.available_options], [self.current_multi_pv] and the
    lines still to be read, for a client. *)
Definition uopts (s : state) := opts (core_state s).
Definition multipv (s : state) : Z := current_multi_pv (self s).
Definition uincoming (s : state) : list string := EngineCore.incoming (core_state s).

(** An entry is a parsed info line. *)
Definition parsed (e : gmap string value) : Prop :=
  exists line, parse_info line = Ok (Some e).

(** The generators of structured mode. *)
Definition structured (g : generator) : Prop :=
  match g with
  | Created a => raw_output a = false
  | SuspendedStructured _ _ => True
  | _ => False
  end.

End ClientVocabulary.

(** ** Sessions, lines and commands used in the statements *)

(** An engine double that answers the handshake and then stays silent,
    driven with a timeout of one second. *)
Definition silent_session : EngineCore.state :=
  {| EngineCore.output_buffer := [];
     EngineCore.self :=
       {| EngineCore.timeout := 1;
          EngineCore.engine := {| stdout := []; stdin := ["uci" +:+ nl] |};
          EngineCore._output_queue := [];
          EngineCore.available_options := Some ∅ |} |}.

(** A session whose engine writes four lines over three polls. *)
Definition chatty_session : EngineCore.state :=
  {| EngineCore.output_buffer := [];
     EngineCore.self :=
       EngineCore.spawn 1 [["id name double"; "  uciok  "]; []; ["readyok"; "bestmove e2e4"]] |}.

(** Two engine doubles: each answers the handshake; the second one also
    writes a line of its own in the same burst. *)
Definition script_A : list (list string) := [["id name A"; "uciok"]].
Definition script_B : list (list string) :=
  [["id name B"; "uciok"; "info string written by B"]].

(** [a = EngineCore(path_a); b = EngineCore(path_b)] *)
Definition two_sessions : M Program.t (nat * nat) :=
  a ← Program.create true 60 script_A;
  b ← Program.create true 60 script_B;
  mret (a, b).

(** After the first session alone, and after both. *)
Definition after_A : Program.t := (Program.create true 60 script_A Program.start).2.
Definition after_AB : Program.t := (two_sessions Program.start).2.

(** Lines of engine output. *)
Definition info_line : string :=
  "info depth 10 seldepth 14 multipv 1 score cp 25 nodes 12345 nps 500000 time 30 pv e2e4 e7e5".

(** A client after its handshake, with the given lines in the buffer. *)
Definition client_with (buffered : list string) (multi_pv : Z) : UCIEngine.state :=
  {| UCIEngine.output_buffer := buffered;
     UCIEngine.self :=
       {| UCIEngine.timeout := 1;
          UCIEngine.engine :=
            {| EngineCore.timeout := 1;
               EngineCore.engine := {| stdout := []; stdin := ["uci" +:+ nl] |};
               EngineCore._output_queue := [];
               EngineCore.available_options := Some declared_options |};
          UCIEngine.default_option_override := None;
          UCIEngine.current_multi_pv := multi_pv |} |}.

(** [go()] with no argument. *)
Definition go_default : UCIEngine.go_args :=
  {| UCIEngine.depth := None; UCIEngine.wtime := None; UCIEngine.btime := None;
     UCIEngine.winc := None; UCIEngine.binc := None; UCIEngine.movetime := None;
     UCIEngine.searchmoves := None; UCIEngine.nodes := None;
     UCIEngine.raw_output := false; UCIEngine.kwargs := [] |}.

Definition no_seldepth_line : string :=
  "info depth 10 multipv 1 score cp 25 nodes 12345 nps 500000 time 30 pv e2e4 e7e5".

Definition odd_tokens_line : string :=
  "info depth 10 seldepth 14 multipv 1 score cp 25 nodes 12345 nps time 30 pv e2e4 e7e5".

(** A search with MultiPV 3: the engine reports three lines for a depth,
    with some chatter between them, and then its best move. *)
Definition multipv3_client : UCIEngine.state :=
  client_with
    [ "info depth 1 seldepth 1 multipv 1 score cp 25 nodes 20 nps 500 time 1 pv e2e4 e7e5";
      "info string chatter";
      "info depth 1 seldepth 1 multipv 2 score cp 20 nodes 20 nps 500 time 1 pv d2d4 d7d5";
      "info depth 1 seldepth 2 multipv 3 score mate -3 nodes 20 nps 500 time 1 pv g1f3";
      "bestmove e2e4 ponder e7e5" ] 3.

Definition multipv3_step := UCIEngine.next (UCIEngine.Created go_default) multipv3_client.

Definition multipv3_lines : list (gmap string value) :=
  match multipv3_step with
  | (Return (Some (UCIEngine.Snapshot o), _), _) => lines o
  | _ => []
  end.

(** The position command as the claim words it: [position startpos] or
    [position fen <FEN>], with [moves <m1> <m2> ...] appended if and only
    if a non-empty move list is given. *)
Definition stated_position_command (fen : option string) (moves : option (list string))
    : string :=
  "position " +:+
  match fen with None => "startpos" | Some fen => "fen " +:+ fen end +:+
  match moves with
  | Some (m :: l) => " moves " +:+ PyStr.join " " (m :: l)
  | _ => ""
  end.

(** The position command that the code writes: a move list that is given
    appends the keyword, also when it is empty, and an absent one leaves
    the separating blank. *)
Definition written_position_command (fen : option string) (moves : option (list string))
    : string :=
  "position " +:+
  match fen with None => "startpos" | Some fen => "fen " +:+ fen end +:+
  match moves with
  | Some l => " moves " +:+ PyStr.join " " l
  | None => " "
  end.

(** The tokens of a written command, blanks and the line end aside. *)
Definition command_tokens (written : string) : list string :=
  List.filter UCIEngine.nonempty (PyStr.split " " (PyStr.strip written)).

(** The claim as stated, for one call: the call writes [ucinewgame],
    [isready] and the position command of the claim, read token by
    token. *)
Definition set_position_as_stated (fen : option string) (moves : option (list string))
    (s : UCIEngine.state) : Prop :=
  forall s', UCIEngine.set_position fen moves s = (Return tt, s') ->
    command_tokens <$> drop (length (usent s)) (usent s') =
    command_tokens <$> ["ucinewgame"; "isready"; stated_position_command fen moves].

(** ** Further vocabulary *)

(** [list(g)]: advance the generator until it stops, collecting what it
    yields.  [n] bounds the number of advances. *)
Fixpoint exhaust (n : nat) (g : UCIEngine.generator)
    : M UCIEngine.state (list UCIEngine.item) :=
  match n with
  | 0 => out_of_fuel
  | S n' =>
      r ← UCIEngine.next g;
      match r.1 with
      | Some x => xs ← exhaust n' r.2; mret (x :: xs)
      | None => mret []
      end
  end.

(** The engine declared an option of this name. *)
Definition declared (ao : gmap (option string) EngineCore.option_info) (name : string)
    : bool :=
  match ao !! Some name with Some _ => true | None => false end.

(** The text of a [setoption] command for a value given as a string. *)
Definition setoption_line (name value : string) : string :=
  match value with
  | EmptyString => "setoption name " +:+ name +:+ " "
  | _ => "setoption name " +:+ name +:+ " value " +:+ value
  end.

(** The part of a [go] command for an integer parameter. *)
Definition supplied (name : string) (x : option Z) : list string :=
  match x with
  | Some n => [name +:+ " " +:+ PyStr.of_int n]
  | None => []
  end.

(** The parts of a [go] command, in the order of the command. *)
Definition go_parts (a : UCIEngine.go_args) : list string :=
  [ match UCIEngine.depth a with
    | None => "infinite"
    | Some d => "depth " +:+ PyStr.of_int d
    end ]
  ++ supplied "wtime" (UCIEngine.wtime a) ++ supplied "btime" (UCIEngine.btime a)
  ++ supplied "winc" (UCIEngine.winc a) ++ supplied "binc" (UCIEngine.binc a)
  ++ supplied "movetime" (UCIEngine.movetime a)
  ++ match UCIEngine.searchmoves a with
     | Some l => ["searchmoves " +:+ PyStr.join " " l]
     | None => []
     end
  ++ supplied "nodes" (UCIEngine.nodes a)
  ++ map (fun kv => kv.1 +:+ " " +:+ kv.2) (UCIEngine.kwargs a).

(** A line that the info pattern rejects. *)
Definition noise (l : string) : Prop := Re.match_ RE_PARSE_INFO l = None.

(** A line that does not contain the word [bestmove]. *)
Definition no_bestmove (l : string) : Prop := PyStr.contains "bestmove" l = false.

(** The engine writes what is left of its script within the timeout. *)
Definition in_time (s : EngineCore.state) : Prop :=
  pending_chunks s < EngineCore.polls (EngineCore.self s).

Definition uin_time (s : UCIEngine.state) : Prop := in_time (UCIEngine.core_state s).

(** One report of the engine within a search cycle: the lines that come
    before the info line, the info line, and the entry it parses to. *)
Definition report : Type := list string * string * gmap string value.

(** The lines of a sequence of reports, in the order the engine writes
    them. *)
Definition report_lines (reports : list report) : list string :=
  concat (map (fun r : report => r.1.1 ++ [r.1.2]) reports).

(** The lines before the info line are rejected by the info pattern and
    the info line parses to the entry. *)
Definition well_reported (r : report) : Prop :=
  Forall noise r.1.1 /\ UCIEngine.parse_info r.1.2 = Ok (Some r.2).

(** A generator of structured mode that has not yielded its last
    snapshot, and the text its next advance writes. *)
Definition in_search (g : UCIEngine.generator) : Prop :=
  match g with
  | UCIEngine.Created a => UCIEngine.raw_output a = false
  | UCIEngine.SuspendedStructured continue_flg _ => continue_flg = true
  | _ => False
  end.

Definition written_by (g : UCIEngine.generator) : list string :=
  match g with
  | UCIEngine.Created a => [UCIEngine.go_command a +:+ nl]
  | _ => []
  end.

(** The entry that [info_line] parses to. *)
Definition info_entry : gmap string value :=
  {[ "score" := VDict {[ "mate" := VNone; "cp" := VInt 25 ]};
     "moves" := VList ["e2e4"; "e7e5"];
     "next_move" := VStr "e2e4";
     "depth" := VInt 10; "seldepth" := VInt 14; "multipv" := VInt 1;
     "time" := VInt 30;
     "nodes" := VStr "12345"; "nps" := VStr "500000" ]}.

(** * Properties *)

(** ** The patterns

    The syntax trees that the matcher runs are what the texts of the
    patterns compile to. *)

Lemma RE_OPTIONS_LIST_compiled :
  Re.compile RE_OPTIONS_LIST_pattern = Some RE_OPTIONS_LIST.
Proof. vm_compute. reflexivity. Qed.

Lemma RE_PARSE_INFO_compiled :
  Re.compile RE_PARSE_INFO_pattern = Some RE_PARSE_INFO.
Proof. vm_compute. reflexivity. Qed.

Lemma RE_BEST_MOVE_compiled :
  Re.compile RE_BEST_MOVE_pattern = Some RE_BEST_MOVE.
Proof. vm_compute. reflexivity. Qed.

(** ** The monad *)

Lemma bind_eq {S A B} (m : M S A) (k : A -> M S B) (s : S) :
  (m ≫= k) s =
  match m s with
  | (Return a, s') => k a s'
  | (Raise e, s') => (Raise e, s')
  | (OutOfFuel, s') => (OutOfFuel, s')
  end.
Proof. reflexivity. Qed.

Lemma bind_return {S A B} (m : M S A) (k : A -> M S B) (s s' : S) (a : A) :
  m s = (Return a, s') -> (m ≫= k) s = k a s'.
Proof. intros H. rewrite bind_eq, H. reflexivity. Qed.

Lemma bind_raise {S A B} (m : M S A) (k : A -> M S B) (s s' : S) (e : exn) :
  m s = (Raise e, s') -> (m ≫= k) s = (Raise e, s').
Proof. intros H. rewrite bind_eq, H. reflexivity. Qed.

Lemma bind_read {S B} (k : S -> M S B) (s : S) : (read ≫= k) s = k s s.
Proof. reflexivity. Qed.

(** ** Projections of the state that a computation leaves alone *)

Section Frame.
Context {S X : Type} (f : S -> X).

Lemma preserves_ret {A} (a : A) : preserves f (mret a).
Proof. intros s. reflexivity. Qed.

Lemma preserves_raise {A} (e : exn) : preserves f (raise e : M S A).
Proof. intros s. reflexivity. Qed.

Lemma preserves_out_of_fuel {A} : preserves f (out_of_fuel : M S A).
Proof. intros s. reflexivity. Qed.

Lemma preserves_read : preserves f read.
Proof. intros s. reflexivity. Qed.

Lemma preserves_pure_outcome {A} (r : result A) :
  preserves f (UCIEngine.pure_outcome r).
Proof. intros s. reflexivity. Qed.

Lemma preserves_modify (g : S -> S) :
  (forall s, f (g s) = f s) -> preserves f (modify g).
Proof. intros H s. apply H. Qed.

Lemma preserves_bind {A B} (m : M S A) (k : A -> M S B) :
  preserves f m -> (forall a, preserves f (k a)) -> preserves f (m ≫= k).
Proof.
  intros Hm Hk s. rewrite bind_eq. specialize (Hm s).
  destruct (m s) as [[a|e|] s']; simpl in *; try assumption.
  rewrite Hk. assumption.
Qed.
End Frame.

Ltac frame_step :=
  first [ apply preserves_bind; [| intros ? ]
        | apply preserves_ret | apply preserves_raise
        | apply preserves_out_of_fuel | apply preserves_read
        | apply preserves_pure_outcome ].

(** ** core.py: what the waits and the reads do *)

Section Core.
Import EngineCore.

Lemma incoming_reader_tick (b : list string) (c : t) :
  incoming {| output_buffer := b; self := reader_tick c |} =
  incoming {| output_buffer := b; self := c |}.
Proof.
  unfold incoming, reader_tick, _read_output_to_queue. simpl.
  destruct (stdout (engine c)) as [|chunk rest] eqn:E; simpl; rewrite ?E; [reflexivity|].
  rewrite map_app, <- !app_assoc. reflexivity.
Qed.

Lemma sleep_incoming : preserves incoming sleep.
Proof. intros [b c]. apply incoming_reader_tick. Qed.

Lemma sleep_frame : preserves frame sleep.
Proof.
  intros [b c]. unfold frame, sleep, modify, on_self, reader_tick. simpl.
  destruct (stdout (engine c)); reflexivity.
Qed.

Lemma move_incoming : preserves incoming _move_from_queue_to_buffer.
Proof.
  intros [b c]. unfold incoming, _move_from_queue_to_buffer, modify, _read_output_to_queue.
  simpl. rewrite <- app_assoc. reflexivity.
Qed.

Lemma move_frame : preserves frame _move_from_queue_to_buffer.
Proof. intros [b c]. reflexivity. Qed.

Lemma wait_loop_preserves {X} (f : state -> X) (short : list string -> bool) (n : nat) :
  preserves f sleep -> preserves f _move_from_queue_to_buffer ->
  preserves f (wait_loop short n).
Proof.
  intros Hs Hm. induction n as [|n IH]; simpl.
  - apply preserves_ret.
  - apply preserves_bind; [apply preserves_read|]. intros s.
    destruct (short (output_buffer s)); [|apply preserves_ret].
    repeat (apply preserves_bind; [assumption|intros _]). exact IH.
Qed.

Lemma wait_preserves {X} (f : state -> X) (i : option nat) :
  preserves f sleep -> preserves f _move_from_queue_to_buffer ->
  preserves f (_wait_output_buffer i).
Proof.
  intros Hs Hm. unfold _wait_output_buffer.
  apply preserves_bind; [apply preserves_read|]. intros s.
  destruct i; apply wait_loop_preserves; assumption.
Qed.

(** A wait never raises: it returns when the buffer is long enough or
    when the time is up. *)
Lemma wait_loop_returns (short : list string -> bool) (n : nat) (s : state) :
  (wait_loop short n s).1 = Return tt.
Proof.
  revert s. induction n as [|n IH]; intros s; simpl; [reflexivity|].
  rewrite bind_eq. simpl. destruct (short (output_buffer s)); [|reflexivity].
  rewrite !bind_eq. simpl. apply IH.
Qed.

Lemma wait_returns (i : option nat) (s : state) :
  (_wait_output_buffer i s).1 = Return tt.
Proof.
  unfold _wait_output_buffer. rewrite bind_eq. simpl.
  destruct i; apply wait_loop_returns.
Qed.

Lemma wait_run (i : option nat) (s : state) :
  exists s', _wait_output_buffer i s = (Return tt, s') /\
             incoming s' = incoming s /\ frame s' = frame s.
Proof.
  exists (_wait_output_buffer i s).2. split; [|split].
  - pose proof (wait_returns i s) as H.
    destruct (_wait_output_buffer i s) as [r s']. simpl in *. congruence.
  - apply (wait_preserves incoming); [apply sleep_incoming | apply move_incoming].
  - apply (wait_preserves frame); [apply sleep_frame | apply move_frame].
Qed.

(** [get] either returns the first of the incoming lines and leaves the
    others, or raises [IndexError] and consumes nothing. *)
Lemma get_spec (s : state) :
  match get s with
  | (Return x, s') => incoming s = x :: incoming s' /\ frame s' = frame s
  | (Raise e, s') =>
      e = IndexError /\ output_buffer s' = [] /\
      incoming s' = incoming s /\ frame s' = frame s
  | (OutOfFuel, _) => False
  end.
Proof.
  unfold get. destruct (wait_run None s) as (s1 & Hw & Hi & Hf).
  rewrite (bind_return _ _ _ _ _ Hw), bind_eq. simpl.
  destruct s1 as [b c]. simpl. destruct b as [|x b]; simpl.
  - auto.
  - rewrite <- Hi. split; [reflexivity|]. rewrite <- Hf. reflexivity.
Qed.

Lemma get_frame : preserves frame get.
Proof.
  intros s. pose proof (get_spec s) as H.
  destruct (get s) as [[x|e|] s']; simpl; tauto.
Qed.

Lemma view_spec (i : nat) (s : state) :
  match view i s with
  | (Return x, s') =>
      output_buffer s' !! i = Some x /\ incoming s' = incoming s /\ frame s' = frame s
  | (Raise e, s') =>
      e = IndexError /\ length (output_buffer s') <= i /\
      incoming s' = incoming s /\ frame s' = frame s
  | (OutOfFuel, _) => False
  end.
Proof.
  unfold view. destruct (wait_run (Some i) s) as (s1 & Hw & Hi & Hf).
  rewrite (bind_return _ _ _ _ _ Hw), bind_eq. simpl.
  destruct (output_buffer s1 !! i) eqn:E; simpl; [auto|].
  apply lookup_ge_None in E. auto.
Qed.

Lemma view_frame (i : nat) : preserves frame (view i).
Proof.
  intros s. pose proof (view_spec i s) as H.
  destruct (view i s) as [[x|e|] s']; simpl; tauto.
Qed.

Lemma view_incoming (i : nat) : preserves incoming (view i).
Proof.
  intros s. pose proof (view_spec i s) as H.
  destruct (view i s) as [[x|e|] s']; simpl; tauto.
Qed.

End Core.

Section Ready.
Import EngineCore.

Lemma put_incoming (message : string) : preserves incoming (put message).
Proof. intros [b c]. reflexivity. Qed.

Lemma put_sent (message : string) (s : state) :
  sent (put message s).2 = sent s ++ [message +:+ nl].
Proof. reflexivity. Qed.

Lemma put_run (message : string) (s : state) :
  exists s', put message s = (Return tt, s') /\ incoming s' = incoming s /\
             sent s' = sent s ++ [message +:+ nl] /\
             timeout (self s') = timeout (self s) /\
             available_options (self s') = available_options (self s) /\
             stdout (engine (self s')) = stdout (engine (self s)) /\
             output_buffer s' = output_buffer s /\
             _output_queue (self s') = _output_queue (self s).
Proof. eexists. split; [reflexivity|]. destruct s as [b c]. simpl. auto 10. Qed.

Lemma frame_eq (s s' : state) :
  frame s' = frame s ->
  timeout (self s') = timeout (self s) /\ sent s' = sent s /\
  available_options (self s') = available_options (self s).
Proof. unfold frame, sent. intros H. injection H. auto. Qed.

(** The loop of [is_ready] consumes the lines up to the first [readyok]
    and returns, or runs into the [IndexError] of a [get]; its fuel is
    never spent. *)
Lemma is_ready_loop_spec (n : nat) :
  forall (resp : string) (s : state),
    length (incoming s) < n ->
    match is_ready_loop n resp s with
    | (Return b, s') =>
        b = true /\ frame s' = frame s /\
        exists pre, resp :: incoming s = pre ++ "readyok" :: incoming s' /\
                    "readyok" ∉ pre
    | (Raise e, s') => e = IndexError /\ frame s' = frame s
    | (OutOfFuel, _) => False
    end.
Proof.
  induction n as [|n IH]; intros resp s Hn; [lia|]. simpl.
  destruct (String.eqb_spec resp "readyok") as [->|Hne].
  - simpl. split; [reflexivity|]. split; [reflexivity|].
    exists []. split; [reflexivity|]. apply not_elem_of_nil.
  - rewrite bind_eq. pose proof (get_spec s) as Hg.
    destruct (get s) as [[x|e|] s1]; [| tauto | tauto].
    destruct Hg as [Hi Hf].
    assert (Hlt : length (incoming s1) < n) by (rewrite Hi in Hn; simpl in Hn; lia).
    specialize (IH x s1 Hlt).
    destruct (is_ready_loop n x s1) as [[b|e|] s2]; [| | tauto].
    + destruct IH as (Hb & Hf2 & pre & Hpre & Hnot).
      split; [assumption|]. split; [congruence|].
      exists (resp :: pre). split.
      * rewrite Hi, Hpre. reflexivity.
      * rewrite not_elem_of_cons. auto.
    + destruct IH as [He Hf2]. split; [assumption | congruence].
Qed.

Lemma is_ready_spec (s : state) :
  match is_ready s with
  | (Return b, s') =>
      b = true /\ sent s' = sent s ++ ["isready" +:+ nl] /\
      timeout (self s') = timeout (self s) /\
      available_options (self s') = available_options (self s) /\
      exists pre, incoming s = pre ++ "readyok" :: incoming s' /\ "readyok" ∉ pre
  | (Raise e, s') =>
      e = IndexError /\ sent s' = sent s ++ ["isready" +:+ nl] /\
      timeout (self s') = timeout (self s) /\
      available_options (self s') = available_options (self s)
  | (OutOfFuel, _) => False
  end.
Proof.
  unfold is_ready.
  destruct (put_run "isready" s) as (s0 & Hp & Hi0 & Hs0 & Ht0 & Ho0 & _).
  rewrite (bind_return _ _ _ _ _ Hp), bind_eq.
  pose proof (get_spec s0) as Hg.
  destruct (get s0) as [[x|e|] s1]; [| | tauto].
  - destruct Hg as [Hi Hf]. rewrite bind_read.
    pose proof (is_ready_loop_spec (fuel s1) x s1 (Nat.lt_succ_diag_r _)) as Hl.
    destruct (is_ready_loop (fuel s1) x s1) as [[b|e|] s2]; [| | tauto].
    + destruct Hl as (Hb & Hf2 & pre & Hpre & Hnot).
      apply frame_eq in Hf as (? & ? & ?). apply frame_eq in Hf2 as (? & ? & ?).
      split_and!; try congruence.
      exists pre. split; [congruence | assumption].
    + destruct Hl as [He Hf2].
      apply frame_eq in Hf as (? & ? & ?). apply frame_eq in Hf2 as (? & ? & ?).
      split_and!; congruence.
  - destruct Hg as (He & _ & _ & Hf). apply frame_eq in Hf as (? & ? & ?).
    split_and!; congruence.
Qed.

(** Without a [readyok] among the incoming lines, [is_ready] ends in the
    [IndexError] of the [get] whose wait timed out. *)
Lemma is_ready_silent (s : state) :
  "readyok" ∉ incoming s -> (is_ready s).1 = Raise IndexError.
Proof.
  intros Hnot. pose proof (is_ready_spec s) as H.
  destruct (is_ready s) as [[b|e|] s']; simpl; [| | tauto].
  - destruct H as (_ & _ & _ & _ & pre & Hpre & _). exfalso. apply Hnot.
    rewrite Hpre. set_solver.
  - destruct H as [-> _]. reflexivity.
Qed.

Lemma get_silent (s : state) :
  incoming s = [] -> (get s).1 = Raise IndexError.
Proof.
  intros Hnil. pose proof (get_spec s) as H.
  destruct (get s) as [[x|e|] s']; simpl; [| | tauto].
  - destruct H as [H _]. congruence.
  - destruct H as [-> _]. reflexivity.
Qed.

Lemma view_silent (i : nat) (s : state) :
  incoming s = [] -> (view i s).1 = Raise IndexError.
Proof.
  intros Hnil. pose proof (view_spec i s) as H.
  destruct (view i s) as [[x|e|] s']; simpl; [| | tauto].
  - destruct H as (Hl & Hi & _). rewrite Hnil in Hi. unfold incoming in Hi.
    apply app_eq_nil in Hi as [Hb _]. rewrite Hb in Hl. discriminate.
  - destruct H as [-> _]. reflexivity.
Qed.

End Ready.

(** C1.  What the code does when a wait runs out of time: for a session
    that will not receive [readyok], [is_ready] ends in [IndexError], the
    error of popping from the empty buffer, and when no line at all is to
    come, so do [get] and [view]; in no case is the error a timeout
    error. *)
Theorem wait_timeout_surfaces_as_IndexError (s : EngineCore.state) :
  "readyok" ∉ EngineCore.incoming s ->
  (EngineCore.is_ready s).1 = Raise IndexError /\
  (EngineCore.is_ready s).1 <> Raise TimeoutError /\
  (EngineCore.incoming s = [] ->
   (EngineCore.get s).1 = Raise IndexError /\
   forall i, (EngineCore.view i s).1 = Raise IndexError).
Proof.
  intros Hnot. rewrite (is_ready_silent s Hnot).
  split; [reflexivity|]. split; [discriminate|].
  intros Hnil. split; [apply get_silent | intros i; apply view_silent]; assumption.
Qed.

Lemma wait_timeout_surfaces_as_IndexError_witness :
  (EngineCore.is_ready silent_session).1 = Raise IndexError /\
  (EngineCore.get silent_session).1 = Raise IndexError /\
  (EngineCore.view 0 silent_session).1 = Raise IndexError.
Proof.
  assert (Hnot : "readyok" ∉ EngineCore.incoming silent_session)
    by (vm_compute; apply not_elem_of_nil).
  destruct (wait_timeout_surfaces_as_IndexError silent_session Hnot) as (H1 & _ & H2).
  destruct (H2 eq_refl) as [Hg Hv].
  split; [exact H1|]. split; [exact Hg | exact (Hv 0)].
Defined.

(** ** Order of the lines *)

Section Fifo.
Import EngineCore.

Lemma wait_loop_ready (n : nat) (s : state) :
  output_buffer s <> [] ->
  wait_loop (fun b => length b =? 0) n s = (Return tt, s).
Proof.
  intros Hb. destruct n as [|n]; simpl; [reflexivity|].
  rewrite bind_read. destruct (output_buffer s); [congruence | reflexivity].
Qed.

Lemma wait_loop_S (short : list string -> bool) (n : nat) (s : state) :
  wait_loop short (S n) s =
  if short (output_buffer s) then wait_loop short n (poll s) else (Return tt, s).
Proof. simpl. rewrite bind_read. destruct (short (output_buffer s)); reflexivity. Qed.

Lemma poll_incoming (s : state) : incoming (poll s) = incoming s.
Proof.
  unfold poll. rewrite (move_incoming (sleep s).2). apply sleep_incoming.
Qed.

Lemma poll_chunks (s : state) : pending_chunks (poll s) = Nat.pred (pending_chunks s).
Proof.
  destruct s as [b c]. unfold poll, pending_chunks, reader_tick. simpl.
  unfold reader_tick. destruct (stdout (engine c)) as [|chunk rest] eqn:Es; simpl.
  - rewrite Es. reflexivity.
  - reflexivity.
Qed.

Lemma poll_last (s : state) :
  output_buffer s = [] -> stdout (engine (self s)) = [] ->
  output_buffer (poll s) = incoming s.
Proof.
  destruct s as [b c]. simpl. intros -> Es.
  unfold poll, incoming, _read_output_to_queue, reader_tick. simpl.
  unfold reader_tick. rewrite Es. simpl. rewrite app_nil_r. reflexivity.
Qed.

(** When a line is on its way and the engine writes it within the polls
    left, the wait ends with a buffer that is not empty. *)
Lemma wait_loop_delivers (n : nat) :
  forall s : state,
    incoming s <> [] -> pending_chunks s < n ->
    let s' := (wait_loop (fun b => length b =? 0) n s).2 in
    output_buffer s' <> [] /\ pending_chunks s' <= pending_chunks s.
Proof.
  induction n as [|n IH]; intros s Hin Hn; [lia|].
  destruct (output_buffer s) as [|x b] eqn:Eb.
  - cbv zeta. rewrite wait_loop_S, Eb. simpl (length [] =? 0).  cbv iota.
    destruct (stdout (engine (self s))) as [|chunk rest] eqn:Es.
    + (* nothing more to come: the line is in the queue *)
      assert (Hq : output_buffer (poll s) <> [])
        by (rewrite (poll_last s Eb Es); exact Hin).
      rewrite (wait_loop_ready n _ Hq). simpl. split; [exact Hq|].
      rewrite poll_chunks. lia.
    + destruct (IH (poll s)) as [H1 H2].
      * rewrite poll_incoming. exact Hin.
      * rewrite poll_chunks. unfold pending_chunks in *. rewrite Es in *.
        simpl in *. lia.
      * split; [exact H1|]. rewrite poll_chunks in H2. lia.
  - rewrite wait_loop_ready by (rewrite Eb; discriminate).
    simpl. rewrite Eb. split; [discriminate | lia].
Qed.

(** A [get] whose line arrives in time returns it. *)
Lemma get_delivers (s : state) (x : string) (rest : list string) :
  incoming s = x :: rest -> pending_chunks s < polls (self s) ->
  exists s', get s = (Return x, s') /\ incoming s' = rest /\
             pending_chunks s' <= pending_chunks s /\ frame s' = frame s.
Proof.
  intros Hin Hn.
  assert (Hne : incoming s <> []) by (rewrite Hin; discriminate).
  pose proof (wait_loop_delivers _ s Hne Hn) as [Hb Hc].
  pose proof (get_spec s) as Hg. unfold get in *.
  destruct (wait_run None s) as (s1 & Hw & Hi & Hf).
  assert (Hs1 : (wait_loop (fun b => length b =? 0) (polls (self s)) s).2 = s1).
  { unfold _wait_output_buffer in Hw. rewrite bind_read in Hw. rewrite Hw. reflexivity. }
  rewrite Hs1 in Hb, Hc.
  rewrite (bind_return _ _ _ _ _ Hw), bind_read in Hg |- *.
  destruct s1 as [b c]. simpl in *. destruct b as [|y b]; [congruence|].
  simpl in *. destruct Hg as [Hg1 Hg2]. rewrite Hin in Hg1.
  injection Hg1 as -> ->. eexists. split; [reflexivity|].
  split; [reflexivity|]. split; [exact Hc | exact Hg2].
Qed.

(** Whatever [n] successive [get]s return is a prefix of the incoming
    lines, and the lines after it are still to be read. *)
Lemma takes_prefix (n : nat) :
  forall (s s' : state) (xs : list string),
    takes n s = (Return xs, s') ->
    incoming s = xs ++ incoming s' /\ length xs = n.
Proof.
  induction n as [|n IH]; intros s s' xs H; simpl in H.
  - injection H as <- <-. split; reflexivity.
  - rewrite bind_eq in H. pose proof (get_spec s) as Hg.
    destruct (get s) as [[x|e|] s1]; try discriminate.
    rewrite bind_eq in H.
    destruct (takes n s1) as [[ys|e|] s2] eqn:E; try discriminate.
    injection H as <- <-. destruct (IH _ _ _ E) as [H1 H2].
    destruct Hg as [Hg _]. rewrite Hg, H1. simpl. split; [reflexivity | lia].
Qed.

(** When the engine writes its lines in time, [n] successive [get]s
    return the first [n] incoming lines. *)
Lemma takes_delivers (n : nat) :
  forall s : state,
    pending_chunks s < polls (self s) -> n <= length (incoming s) ->
    exists s', takes n s = (Return (take n (incoming s)), s') /\
               incoming s' = drop n (incoming s).
Proof.
  induction n as [|n IH]; intros s Hp Hn.
  - exists s. split; reflexivity.
  - destruct (incoming s) as [|x rest] eqn:Ein; [simpl in Hn; lia|].
    destruct (get_delivers s x rest Ein Hp) as (s1 & Hg & Hi & Hc & Hf).
    destruct (IH s1) as (s2 & Ht & Hd).
    + apply frame_eq in Hf as (Ht & _). unfold polls in *. rewrite Ht. lia.
    + rewrite Hi. simpl in Hn. lia.
    + exists s2. simpl. rewrite (bind_return _ _ _ _ _ Hg).
      rewrite (bind_return _ _ _ _ _ Ht). rewrite Hi. split; [reflexivity|].
      rewrite Hd, Hi. reflexivity.
Qed.

End Fifo.

(** C2.  For a session whose buffer and queue start empty and any script
    of emitted lines: whatever [n] successive [get]s return is the first
    [n] trimmed lines in emission order, the later lines being still to
    come; and when the engine writes within the timeout, the [n] calls do
    return, for every [n] up to the number of lines emitted. *)
Theorem takes_return_emitted_lines_in_order (s : EngineCore.state) (n : nat) :
  EngineCore.output_buffer s = [] ->
  EngineCore._output_queue (EngineCore.self s) = [] ->
  let emitted := concat (stdout (EngineCore.engine (EngineCore.self s))) in
  (forall xs s', takes n s = (Return xs, s') ->
     xs = take n (trimmed emitted) /\
     EngineCore.incoming s' = drop n (trimmed emitted)) /\
  (pending_chunks s < EngineCore.polls (EngineCore.self s) ->
   n <= length emitted ->
   exists s', takes n s = (Return (take n (trimmed emitted)), s')).
Proof.
  intros Hb Hq emitted.
  assert (Hin : EngineCore.incoming s = trimmed emitted).
  { unfold EngineCore.incoming, _read_output_to_queue. rewrite Hb, Hq. reflexivity. }
  split.
  - intros xs s' H. apply takes_prefix in H as [H1 H2]. rewrite <- Hin, H1.
    subst n. rewrite take_app_length, drop_app_length. split; reflexivity.
  - intros Hp Hn. destruct (takes_delivers n s Hp) as (s' & Ht & _).
    + rewrite Hin. unfold trimmed. rewrite length_map. exact Hn.
    + exists s'. rewrite <- Hin. exact Ht.
Qed.

Lemma takes_return_emitted_lines_in_order_witness :
  exists s', takes 4 chatty_session =
             (Return ["id name double"; "uciok"; "readyok"; "bestmove e2e4"], s').
Proof.
  destruct (takes_return_emitted_lines_in_order chatty_session 4 eq_refl eq_refl)
    as [_ H].
  apply H; vm_compute; lia.
Defined.

(** ** Two sessions *)

(** C3.  The buffer is the list of the class, so it is one list for all
    sessions: constructing the second session changes the buffer the
    first one reads, and the first session's [view] and [get] return a
    line that the second session's engine wrote.  The claim asks for a
    buffer owned by its session; the code does not have one. *)
Theorem output_buffer_is_shared_between_sessions :
  (two_sessions Program.start).1 = Return (0, 1) /\
  Program.output_buffer_of 0 after_A = Some [] /\
  Program.output_buffer_of 0 after_AB = Some ["info string written by B"] /\
  (Program.call 0 (EngineCore.view 0) after_AB).1 = Return "info string written by B" /\
  (Program.call 0 EngineCore.get after_AB).1 = Return "info string written by B" /\
  Program.output_buffer_of 1 (Program.call 0 EngineCore.get after_AB).2 = Some [].
Proof. vm_compute. repeat split. Qed.

(** Every instance reads the same list: [call] hands the one buffer of
    the program to the method and stores back what the method leaves. *)
Lemma output_buffer_of_same (i j : nat) (p : Program.t) (bi bj : list string) :
  Program.output_buffer_of i p = Some bi ->
  Program.output_buffer_of j p = Some bj -> bi = bj.
Proof.
  unfold Program.output_buffer_of. intros Hi Hj.
  destruct (Program.instances p !! i); destruct (Program.instances p !! j);
    simpl in *; congruence.
Qed.

(** ** The handshake *)

Section Handshake.
Import EngineCore.

Lemma frame_opts {A} (m : M state A) : preserves frame m -> preserves opts m.
Proof. intros H s. specialize (H s). apply frame_eq in H as (_ & _ & H). exact H. Qed.

Lemma put_opts (message : string) : preserves opts (put message).
Proof. intros [b c]. reflexivity. Qed.

Lemma is_ready_opts : preserves opts is_ready.
Proof.
  intros s. pose proof (is_ready_spec s) as H. unfold opts.
  destruct (is_ready s) as [[b|e|] s']; simpl; [| | tauto]; tauto.
Qed.

Lemma handshake_loop_S (n : nat) (resp : string) acc :
  handshake_loop (S n) resp acc =
  if String.eqb resp "uciok" then mret acc
  else resp' ← get; handshake_loop n resp' (add_entry resp acc).
Proof. reflexivity. Qed.

Lemma handshake_loop_spec (n : nat) :
  forall (resp : string) acc (s : state),
    length (incoming s) < n ->
    match handshake_loop n resp acc s with
    | (Return _, s') => frame s' = frame s /\ "uciok" ∈ resp :: incoming s
    | (Raise e, s') => e = IndexError /\ frame s' = frame s
    | (OutOfFuel, _) => False
    end.
Proof.
  induction n as [|n IH]; intros resp acc s Hn; [lia|].
  rewrite handshake_loop_S.
  destruct (String.eqb_spec resp "uciok") as [->|Hne].
  - simpl. split; [reflexivity | apply elem_of_cons; left; reflexivity].
  - rewrite bind_eq. pose proof (get_spec s) as Hg.
    destruct (get s) as [[x|e|] s1]; [| tauto | tauto].
    destruct Hg as [Hi Hf].
    assert (Hlt : length (incoming s1) < n) by (rewrite Hi in Hn; simpl in Hn; lia).
    specialize (IH x (add_entry resp acc) s1 Hlt).
    destruct (handshake_loop n x (add_entry resp acc) s1) as [[l|e|] s2]; [| | tauto].
    + destruct IH as [Hf2 Hin]. split; [congruence|]. rewrite Hi.
      apply elem_of_cons. right. exact Hin.
    + destruct IH as [He Hf2]. split; [assumption | congruence].
Qed.

(** The attribute is assigned by the last statement of the handshake,
    which is reached only after a [uciok] was read. *)
Lemma handshake_spec (s : state) :
  opts s = None ->
  match handshake s with
  | (Return _, s') => is_Some (opts s') /\ "uciok" ∈ incoming s
  | (Raise e, s') => e = IndexError /\ opts s' = None
  | (OutOfFuel, _) => False
  end.
Proof.
  intros Hnone. unfold handshake.
  destruct (put_run "uci" s) as (s0 & Hp & Hi0 & _ & _ & Ho0 & _).
  rewrite (bind_return _ _ _ _ _ Hp), bind_eq.
  pose proof (get_spec s0) as Hg.
  destruct (get s0) as [[x|e|] s1]; [| | tauto].
  - destruct Hg as [Hi Hf]. rewrite bind_read, bind_eq.
    pose proof (handshake_loop_spec (fuel s1) x [] s1 (Nat.lt_succ_diag_r _)) as Hl.
    destruct (handshake_loop (fuel s1) x [] s1) as [[l|e|] s2]; [| | tauto].
    + destruct Hl as [Hf2 Hin]. simpl. split; [eauto|]. congruence.
    + destruct Hl as [He Hf2]. split; [assumption|].
      apply frame_eq in Hf as (_ & _ & ?). apply frame_eq in Hf2 as (_ & _ & ?).
      unfold opts in *. congruence.
  - destruct Hg as (He & _ & _ & Hf). split; [assumption|].
    apply frame_eq in Hf as (_ & _ & ?). unfold opts in *. congruence.
Qed.

Lemma handshake_loop_step (n : nat) (resp : string) acc (s : state)
    (x : string) (rest : list string) :
  String.eqb resp "uciok" = false ->
  incoming s = x :: rest -> pending_chunks s < polls (self s) ->
  exists s', handshake_loop (S n) resp acc s =
             handshake_loop n x (add_entry resp acc) s' /\
             incoming s' = rest /\ pending_chunks s' < polls (self s').
Proof.
  intros Hne Hin Hp. rewrite handshake_loop_S, Hne.
  destruct (get_delivers s x rest Hin Hp) as (s' & Hg & Hi & Hc & Hf).
  exists s'. rewrite (bind_return _ _ _ _ _ Hg). split; [reflexivity|].
  split; [exact Hi|]. apply frame_eq in Hf as (Ht & _).
  unfold polls in *. rewrite Ht. lia.
Qed.

Lemma handshake_two_options (s : state) :
  incoming s = [ "option name Hash type spin default 16";
                 "option name MultiPV type spin default 1"; "uciok" ] ->
  pending_chunks s < polls (self s) ->
  exists s', handshake s = (Return tt, s') /\
             opts s' = Some declared_options /\ incoming s' = [].
Proof.
  intros Hin Hp. unfold handshake.
  destruct (put_run "uci" s) as (s0 & Hput & Hi0 & _ & Ht0 & _ & Hs0 & _).
  rewrite (bind_return _ _ _ _ _ Hput).
  assert (Hp0 : pending_chunks s0 < polls (self s0))
    by (unfold pending_chunks, polls in *; rewrite Hs0, Ht0; exact Hp).
  rewrite Hin in Hi0.
  destruct (get_delivers s0 _ _ Hi0 Hp0) as (s1 & Hg & Hi1 & Hc1 & Hf1).
  rewrite (bind_return _ _ _ _ _ Hg), bind_read.
  assert (Hp1 : pending_chunks s1 < polls (self s1)).
  { apply frame_eq in Hf1 as (Ht & _). unfold polls in *. rewrite Ht. lia. }
  assert (Hfuel : fuel s1 = 3) by (unfold fuel; rewrite Hi1; reflexivity).
  rewrite Hfuel.
  destruct (handshake_loop_step 2 "option name Hash type spin default 16" []
              s1 _ _ eq_refl Hi1 Hp1) as (s2 & E2 & Hi2 & Hp2).
  destruct (handshake_loop_step 1 "option name MultiPV type spin default 1"
              (add_entry "option name Hash type spin default 16" [])
              s2 _ _ eq_refl Hi2 Hp2) as (s3 & E3 & Hi3 & Hp3).
  rewrite bind_eq, E2, E3. rewrite handshake_loop_S. simpl String.eqb. cbv iota.
  eexists. split; [reflexivity|]. split; [|exact Hi3].
  unfold opts, on_self, set_available_options. cbn [self available_options].
  f_equal.
Qed.

End Handshake.

(** ** engine.py: what the methods leave alone *)

Lemma bind_inv {S A B} (m : M S A) (k : A -> M S B) (s s' : S) (b : B) :
  (m ≫= k) s = (Return b, s') ->
  exists a s1, m s = (Return a, s1) /\ k a s1 = (Return b, s').
Proof.
  rewrite bind_eq. destruct (m s) as [[a|e|] s1]; try discriminate. eauto.
Qed.

Lemma pure_outcome_inv {S A} (e : exn) (o : option A) (s s' : S) (a : A) :
  UCIEngine.pure_outcome (UCIEngine.or_raise e o) s = (Return a, s') ->
  o = Some a /\ s' = s.
Proof.
  unfold UCIEngine.pure_outcome. destruct o; simpl; intros H; inversion H; auto.
Qed.

Section Client.
Import UCIEngine.

Lemma core_state_on_engine {A} (m : M EngineCore.state A) (s : state) :
  core_state (on_engine m s).2 = (m (core_state s)).2.
Proof.
  unfold on_engine. destruct (m (core_state s)) as [r [b c]]. reflexivity.
Qed.

Lemma on_engine_result {A} (m : M EngineCore.state A) (s : state) :
  (on_engine m s).1 = (m (core_state s)).1.
Proof.
  unfold on_engine. destruct (m (core_state s)) as [r c]. reflexivity.
Qed.

Lemma on_engine_run {A} (m : M EngineCore.state A) (s : state) r c :
  m (core_state s) = (r, c) ->
  exists s', on_engine m s = (r, s') /\ core_state s' = c.
Proof.
  intros H. unfold on_engine. rewrite H. eexists. split; [reflexivity|].
  destruct c. reflexivity.
Qed.

Lemma on_engine_core {A X} (g : EngineCore.state -> X) (m : M EngineCore.state A) :
  preserves g m -> preserves (fun s => g (core_state s)) (on_engine m).
Proof. intros H s. rewrite core_state_on_engine. apply H. Qed.

Lemma on_engine_multipv {A} (m : M EngineCore.state A) : preserves multipv (on_engine m).
Proof.
  intros s. unfold on_engine, multipv. destruct (m (core_state s)) as [r c]. reflexivity.
Qed.

Lemma read_info_S (n : nat) (resp : string) :
  read_info (S n) resp =
  (tmp_parsed_info ← pure_outcome (parse_info resp);
   match tmp_parsed_info with
   | Some info => mret info
   | None => resp' ← on_engine EngineCore.get; read_info n resp'
   end).
Proof. reflexivity. Qed.

Lemma collect_S (count : nat) (lines_list : list (gmap string value)) :
  collect (S count) lines_list =
  (resp ← on_engine EngineCore.get;
   s ← read;
   tmp_parsed_info ← read_info (EngineCore.fuel (core_state s)) resp;
   collect count (lines_list ++ [tmp_parsed_info])).
Proof. reflexivity. Qed.

Section Search.
Context {X : Type} (f : state -> X).
Hypothesis Hget : preserves f (on_engine EngineCore.get).
Hypothesis Hview : forall i, preserves f (on_engine (EngineCore.view i)).

Lemma read_info_preserves (n : nat) : forall resp, preserves f (read_info n resp).
Proof.
  induction n as [|n IH]; intros resp; simpl; [apply preserves_out_of_fuel|].
  frame_step; [frame_step|]. destruct a; [frame_step|].
  frame_step; [exact Hget | apply IH].
Qed.

Lemma collect_preserves (count : nat) : forall acc, preserves f (collect count acc).
Proof.
  induction count as [|count IH]; intros acc; [apply preserves_ret|].
  rewrite collect_S.
  frame_step; [exact Hget|]. frame_step; [frame_step|].
  frame_step; [apply read_info_preserves | apply IH].
Qed.

Lemma raw_loop_preserves (resp : string) : preserves f (raw_loop resp).
Proof.
  unfold raw_loop. destruct (PyStr.contains "bestmove" resp); [frame_step|].
  frame_step; [exact Hget | frame_step].
Qed.

Lemma structured_loop_preserves (continue_flg : bool) :
  preserves f (structured_loop continue_flg).
Proof.
  unfold structured_loop. destruct continue_flg; simpl; [|frame_step].
  frame_step; [frame_step|]. frame_step; [apply collect_preserves|].
  do 3 (frame_step; [frame_step|]). frame_step; [apply Hview|].
  destruct (PyStr.contains "bestmove" a4); [|frame_step].
  frame_step; [exact Hget|]. frame_step; [frame_step|]. frame_step.
Qed.

(** Advancing a generator that was already started. *)
Lemma resume_preserves (g : generator) :
  (forall a, g <> Created a) -> preserves f (next g).
Proof.
  destruct g as [a|resp|flg nr|]; intros Hg; simpl.
  - destruct (Hg a eq_refl).
  - apply raw_loop_preserves.
  - apply structured_loop_preserves.
  - frame_step.
Qed.

Hypothesis Hput : forall message, preserves f (on_engine (EngineCore.put message)).

Lemma next_preserves (g : generator) : preserves f (next g).
Proof.
  destruct g as [a|resp|flg nr|]; try (apply resume_preserves; discriminate).
  simpl. frame_step; [apply Hput|].
  destruct (raw_output a); [apply raw_loop_preserves | apply structured_loop_preserves].
Qed.
End Search.

Lemma ucinewgame_preserves {X} (f : state -> X) :
  (forall message, preserves f (on_engine (EngineCore.put message))) ->
  preserves f (on_engine EngineCore.is_ready) -> preserves f _ucinewgame.
Proof.
  intros Hput Hready. unfold _ucinewgame.
  frame_step; [apply Hput|]. frame_step; [apply Hready | frame_step].
Qed.

Lemma set_position_preserves {X} (f : state -> X) fen moves :
  (forall message, preserves f (on_engine (EngineCore.put message))) ->
  preserves f (on_engine EngineCore.is_ready) ->
  preserves f (set_position fen moves).
Proof.
  intros Hput Hready. unfold set_position.
  frame_step; [apply ucinewgame_preserves; assumption | apply Hput].
Qed.

Lemma set_option_preserves {X} (f : state -> X) name option :
  (forall message, preserves f (on_engine (EngineCore.put message))) ->
  preserves f (set_option name option).
Proof.
  intros Hput. unfold set_option. frame_step; [frame_step|].
  destruct (EngineCore.available_options (engine (self a))) as [ao|]; [|frame_step].
  destruct (ao !! Some name); [apply Hput | frame_step].
Qed.

Lemma uopts_get : preserves uopts (on_engine EngineCore.get).
Proof. apply (on_engine_core opts), frame_opts, get_frame. Qed.

Lemma uopts_view i : preserves uopts (on_engine (EngineCore.view i)).
Proof. apply (on_engine_core opts), frame_opts, view_frame. Qed.

Lemma uopts_put message : preserves uopts (on_engine (EngineCore.put message)).
Proof. apply (on_engine_core opts), put_opts. Qed.

Lemma uopts_is_ready : preserves uopts (on_engine EngineCore.is_ready).
Proof. apply (on_engine_core opts), is_ready_opts. Qed.

Lemma set_multi_pv_uopts value : preserves uopts (set_multi_pv value).
Proof.
  unfold set_multi_pv. frame_step.
  - apply set_option_preserves, uopts_put.
  - apply preserves_modify. intros [b u]. reflexivity.
Qed.

End Client.

(** C4.  (1) When the engine emits the two declarations and then [uciok],
    in any bursts that fit in the timeout, construction succeeds and
    [available_options] is the mapping of the claim.  (2) The handshake
    assigns the attribute only when it returns, and it returns only if a
    [uciok] was among the lines; if it raises, the attribute is still
    unset.  (3) No method of [EngineCore] and (4) no method of
    [UCIEngine] changes the attribute. *)
Theorem available_options_set_once_by_handshake :
  (forall (timeout : nat) (script : list (list string)),
     concat script = [ "option name Hash type spin default 16";
                       "option name MultiPV type spin default 1"; "uciok" ] ->
     length script < 10 * timeout ->
     exists e, EngineCore.__init__ true timeout script [] = (Return e, []) /\
               EngineCore.available_options e = Some declared_options) /\
  (forall s : EngineCore.state,
     opts s = None ->
     match EngineCore.handshake s with
     | (Return _, s') => is_Some (opts s') /\ "uciok" ∈ EngineCore.incoming s
     | (Raise e, s') => e = IndexError /\ opts s' = None
     | (OutOfFuel, _) => False
     end) /\
  (forall (message : string) (i : nat),
     preserves opts (EngineCore.put message) /\ preserves opts EngineCore.get /\
     preserves opts (EngineCore.view i) /\ preserves opts EngineCore.is_ready /\
     preserves opts EngineCore.stop) /\
  (forall fen moves name option value a g,
     preserves uopts (UCIEngine.set_position fen moves) /\
     preserves uopts (UCIEngine.set_option name option) /\
     preserves uopts (UCIEngine.set_multi_pv value) /\
     preserves uopts (UCIEngine.go a) /\
     preserves uopts (UCIEngine.next g)).
Proof.
  split_and!.
  - intros timeout script Hscript Hlen.
    set (s := {| EngineCore.output_buffer := [];
                 EngineCore.self := EngineCore.spawn timeout script |}).
    destruct (handshake_two_options s) as (s' & Hh & Ho & Hi).
    + unfold EngineCore.incoming, _read_output_to_queue. simpl. rewrite Hscript.
      reflexivity.
    + exact Hlen.
    + exists (EngineCore.self s'). unfold EngineCore.__init__. fold s. rewrite Hh.
      split; [|exact Ho]. f_equal. unfold EngineCore.incoming in Hi.
      apply app_eq_nil in Hi as [Hb _]. exact Hb.
  - exact handshake_spec.
  - intros message i. split_and!.
    + apply put_opts.
    + apply frame_opts, get_frame.
    + apply frame_opts, view_frame.
    + apply is_ready_opts.
    + apply put_opts.
  - intros fen moves name option value a g. split_and!.
    + apply set_position_preserves; [apply uopts_put | apply uopts_is_ready].
    + apply set_option_preserves, uopts_put.
    + apply set_multi_pv_uopts.
    + apply preserves_ret.
    + apply next_preserves; [apply uopts_get | apply uopts_view | apply uopts_put].
Qed.

Lemma available_options_set_once_by_handshake_witness :
  exists e,
    EngineCore.__init__ true 1
      [ ["option name Hash type spin default 16"];
        ["option name MultiPV type spin default 1"; "uciok"] ] [] = (Return e, []) /\
    EngineCore.available_options e = Some declared_options.
Proof.
  apply (proj1 available_options_set_once_by_handshake); [reflexivity | simpl; lia].
Defined.

(** ** Parsing *)

(** C5.  [parse_info] on the line of the claim: the score has [cp] 25
    and [mate] [None], the moves and the next move are those of the [pv],
    the four fixed keys are integers and [nodes] and [nps] stay text; the
    dictionary has no other key. *)
Theorem parse_info_example :
  UCIEngine.parse_info info_line =
  Ok (Some
    {[ "score" := VDict {[ "mate" := VNone; "cp" := VInt 25 ]};
       "moves" := VList ["e2e4"; "e7e5"];
       "next_move" := VStr "e2e4";
       "depth" := VInt 10; "seldepth" := VInt 14; "multipv" := VInt 1;
       "time" := VInt 30;
       "nodes" := VStr "12345"; "nps" := VStr "500000" ]}).
Proof. vm_compute. reflexivity. Qed.

(** C6.  What the code does with a line that matches the pattern but not
    the grammar: a line that omits [seldepth] makes [parse_info] raise
    [KeyError], one with an odd number of tokens makes it raise
    [IndexError], and the search loop, which should skip such a line and
    go on to the good line that follows, ends in that exception.  Only a
    line that the pattern rejects is skipped. *)
Theorem parse_info_raises_on_incomplete_info_line :
  UCIEngine.parse_info no_seldepth_line = Error (KeyError "seldepth") /\
  UCIEngine.parse_info odd_tokens_line = Error IndexError /\
  (UCIEngine.next (UCIEngine.Created go_default)
     (client_with [no_seldepth_line; info_line; "bestmove e2e4"] 1)).1
    = Raise (KeyError "seldepth") /\
  (UCIEngine.next (UCIEngine.Created go_default)
     (client_with [odd_tokens_line; info_line; "bestmove e2e4"] 1)).1
    = Raise IndexError /\
  UCIEngine.parse_info "info string not a search line" = Ok None /\
  (exists o g,
     (UCIEngine.next (UCIEngine.Created go_default)
        (client_with ["info string not a search line"; info_line; "bestmove e2e4"] 1)).1
     = Return (Some (UCIEngine.Snapshot o), g) /\ bestmove o = Some "e2e4").
Proof.
  split_and!; try (vm_compute; reflexivity).
  eexists _, _. vm_compute. split; reflexivity.
Qed.

(** A line that the pattern rejects is no info line: [parse_info] returns
    [None] for it and raises nothing. *)
Lemma parse_info_no_match (text : string) :
  Re.match_ RE_PARSE_INFO text = None -> UCIEngine.parse_info text = Ok None.
Proof. unfold UCIEngine.parse_info. intros ->. reflexivity. Qed.

(** C8.  What the code does with a best-move line: the move and the
    ponder move of four characters are read as the claim says, and a
    missing ponder move is [None]; of a promotion move of five characters
    only the first four are kept, and a ponder move that follows it is
    lost, because the pattern asks for exactly four characters. *)
Theorem best_move_keeps_four_characters :
  UCIEngine.best_move "bestmove e2e4 ponder e7e5" = Ok (Some "e2e4", Some "e7e5") /\
  UCIEngine.best_move "bestmove e2e4" = Ok (Some "e2e4", None) /\
  UCIEngine.best_move "bestmove e7e8q" = Ok (Some "e7e8", None) /\
  UCIEngine.best_move "bestmove e7e8q ponder d7d5" = Ok (Some "e7e8", None) /\
  (exists o g,
     (UCIEngine.next (UCIEngine.Created go_default)
        (client_with [info_line; "bestmove e7e8q"] 1)).1
     = Return (Some (UCIEngine.Snapshot o), g) /\ bestmove o = Some "e7e8").
Proof.
  split_and!; try (vm_compute; reflexivity).
  eexists _, _. vm_compute. split; reflexivity.
Qed.

(** ** The structured search loop *)

Section Snapshots.
Import UCIEngine.

Lemma pure_outcome_return {A} (r : result A) (s s' : state) (a : A) :
  pure_outcome r s = (Return a, s') -> r = Ok a /\ s' = s.
Proof. unfold pure_outcome. destruct r; intros H; inversion H. auto. Qed.

Lemma read_info_spec (n : nat) :
  forall resp (s s' : state) info,
    read_info n resp s = (Return info, s') -> parsed info.
Proof.
  induction n as [|n IH]; intros resp s s' info H; [discriminate|].
  rewrite read_info_S in H. apply bind_inv in H as (p & s1 & Hp & H).
  apply pure_outcome_return in Hp as [Hp ->]. destruct p as [e|].
  - inversion H; subst. exists resp. exact Hp.
  - apply bind_inv in H as (resp' & s2 & _ & H). eapply IH, H.
Qed.

Lemma collect_spec (count : nat) :
  forall acc (s s' : state) l,
    collect count acc s = (Return l, s') ->
    exists new, l = acc ++ new /\ length new = count /\ Forall parsed new.
Proof.
  induction count as [|count IH]; intros acc s s' l H.
  - inversion H; subst. exists []. rewrite app_nil_r. auto.
  - rewrite collect_S in H. apply bind_inv in H as (resp & s1 & _ & H).
    rewrite bind_read in H. apply bind_inv in H as (e & s2 & He & H).
    apply read_info_spec in He. apply IH in H as (new & -> & Hlen & Hall).
    exists (e :: new). rewrite <- app_assoc. simpl. auto.
Qed.

Lemma structured_loop_spec (continue_flg : bool) (s s' : state) it g' :
  structured_loop continue_flg s = (Return (Some it, g'), s') ->
  exists o, it = Snapshot o /\ structured g' /\
    length (lines o) = Z.to_nat (multipv s) /\
    (exists e0, lines o !! 0 = Some e0 /\ e0 !! "next_move" = Some (next_move o) /\
                e0 !! "score" = Some (score o)) /\
    Forall parsed (lines o).
Proof.
  unfold structured_loop. destruct continue_flg; simpl; [|discriminate].
  rewrite bind_read. intros H.
  apply bind_inv in H as (l & s1 & Hc & H).
  apply collect_spec in Hc as (new & -> & Hlen & Hall). simpl in H.
  apply bind_inv in H as (e0 & s2 & H0 & H). apply pure_outcome_inv in H0 as [H0 ->].
  apply bind_inv in H as (nm & s2 & H1 & H). apply pure_outcome_inv in H1 as [H1 ->].
  apply bind_inv in H as (sc & s2 & H2 & H). apply pure_outcome_inv in H2 as [H2 ->].
  apply bind_inv in H as (next_resp & s2 & _ & H).
  destruct (PyStr.contains "bestmove" next_resp).
  - apply bind_inv in H as (resp & s3 & _ & H).
    apply bind_inv in H as (best & s4 & _ & H). inversion H; subst.
    eexists. split; [reflexivity|]. simpl. split_and!; eauto.
  - inversion H; subst. eexists. split; [reflexivity|]. simpl. split_and!; eauto.
Qed.

Lemma multipv_next (g : generator) : preserves multipv (next g).
Proof. apply next_preserves; intros; apply on_engine_multipv. Qed.

Lemma set_option_multipv name option : preserves multipv (set_option name option).
Proof. apply set_option_preserves. intros. apply on_engine_multipv. Qed.

Lemma set_multi_pv_tracks (value : Z) (s s' : state) :
  set_multi_pv value s = (Return tt, s') -> multipv s' = value.
Proof.
  unfold set_multi_pv. intros H. apply bind_inv in H as ([] & s1 & _ & H).
  inversion H. reflexivity.
Qed.

Lemma mapM_preserves {A B X} (f : state -> X) (k : A -> M state B) (l : list A) :
  (forall a, preserves f (k a)) -> preserves f (mapM k l).
Proof.
  intros Hk. induction l as [|a l IH]; simpl; [apply preserves_ret|].
  frame_step; [apply Hk|]. frame_step; [apply IH | apply preserves_ret].
Qed.

Lemma init_multipv path_exists options_override timeout script b u b' :
  __init__ path_exists options_override timeout script b = (Return u, b') ->
  current_multi_pv u = 1%Z.
Proof.
  unfold __init__. destruct path_exists; [|discriminate].
  destruct (EngineCore.__init__ true timeout script b) as [[e| |] b1]; try discriminate.
  set (s0 := {| output_buffer := b1; self := _ |}).
  pose proof (mapM_preserves multipv (fun kv => set_option kv.1 (Some kv.2))
                (default [] options_override)
                (fun kv => set_option_multipv _ _) s0) as Hm.
  match goal with
  | |- context [mapM ?k ?l s0] => destruct (mapM k l s0) as [[r| |] s1] eqn:E
  end; try discriminate.
  intros H. inversion H; subst. exact Hm.
Qed.

End Snapshots.

(** *** The fuel of the search loops is never spent *)

Section SearchFuel.
Import UCIEngine.

Lemma total_bind {S A B} (m : M S A) (k : A -> M S B) :
  total m -> (forall a, total (k a)) -> total (m ≫= k).
Proof.
  intros Hm Hk s. rewrite bind_eq. specialize (Hm s).
  destruct (m s) as [[a|e|] s1]; simpl in *; [apply Hk | discriminate | congruence].
Qed.

Lemma total_get : total (on_engine EngineCore.get).
Proof.
  intros s. rewrite on_engine_result. pose proof (get_spec (core_state s)) as H.
  destruct (EngineCore.get (core_state s)) as [[x|e|] c]; simpl; [discriminate.. | tauto].
Qed.

Lemma total_view i : total (on_engine (EngineCore.view i)).
Proof.
  intros s. rewrite on_engine_result. pose proof (view_spec i (core_state s)) as H.
  destruct (EngineCore.view i (core_state s)) as [[x|e|] c]; simpl; [discriminate.. | tauto].
Qed.

Lemma total_pure_outcome {A} (r : result A) : total (pure_outcome r : M state A).
Proof. intros s. destruct r; discriminate. Qed.

Lemma total_ret {A} (a : A) : total (mret a : M state A).
Proof. intros s. discriminate. Qed.

Lemma read_info_fuel (n : nat) :
  forall resp (s : state),
    length (uincoming s) < n -> (read_info n resp s).1 <> OutOfFuel.
Proof.
  induction n as [|n IH]; intros resp s Hn; [lia|].
  rewrite read_info_S, bind_eq. unfold pure_outcome.
  destruct (parse_info resp) as [[info|]|e]; try discriminate.
  rewrite bind_eq. pose proof (get_spec (core_state s)) as Hg.
  destruct (EngineCore.get (core_state s)) as [r c] eqn:E.
  destruct (on_engine_run _ s _ _ E) as (s1 & E1 & Hc). rewrite E1.
  destruct r as [x|e|]; [| discriminate | tauto].
  destruct Hg as [Hi _]. apply IH. unfold uincoming in *. rewrite Hc.
  rewrite Hi in Hn. simpl in Hn. lia.
Qed.

Lemma total_collect (count : nat) : forall acc, total (collect count acc).
Proof.
  induction count as [|count IH]; intros acc; [apply total_ret|].
  rewrite collect_S. apply total_bind; [apply total_get|]. intros resp s.
  rewrite bind_read, bind_eq.
  pose proof (read_info_fuel (EngineCore.fuel (core_state s)) resp s
                (Nat.lt_succ_diag_r _)) as Hr.
  destruct (read_info _ resp s) as [[info|e|] s1]; simpl in *;
    [apply IH | discriminate | congruence].
Qed.

Lemma total_raw_loop resp : total (raw_loop resp).
Proof.
  unfold raw_loop. destruct (PyStr.contains "bestmove" resp); [apply total_ret|].
  apply total_bind; [apply total_get | intros; apply total_ret].
Qed.

Lemma total_structured_loop flg : total (structured_loop flg).
Proof.
  unfold structured_loop. destruct flg; simpl; [|apply total_ret].
  intros s. rewrite bind_read, bind_eq.
  pose proof (total_collect (Z.to_nat (current_multi_pv (self s))) [] s) as Hc.
  destruct (collect _ [] s) as [[l|e|] s1]; simpl in Hc; [| discriminate | congruence].
  revert s1.
  match goal with |- forall s1, (?m s1).1 <> OutOfFuel => change (total m) end.
  do 3 (apply total_bind; [apply total_pure_outcome | intros ?]).
  apply total_bind; [apply total_view | intros next_resp].
  destruct (PyStr.contains "bestmove" next_resp); [|apply total_ret].
  apply total_bind; [apply total_get | intros ?].
  apply total_bind; [apply total_pure_outcome | intros; apply total_ret].
Qed.

(** Advancing the generator yields, stops or raises: the model never
    answers [OutOfFuel]. *)
Lemma next_never_out_of_fuel (g : generator) : total (next g).
Proof.
  destruct g as [a|resp|flg nr|]; simpl.
  - apply total_bind; [intros s; discriminate|]. intros _.
    destruct (raw_output a); [apply total_raw_loop | apply total_structured_loop].
  - apply total_raw_loop.
  - apply total_structured_loop.
  - apply total_ret.
Qed.

End SearchFuel.

(** C7.  In structured mode every item that [next] yields is a snapshot
    whose [lines] are exactly as many parsed info entries as the MultiPV
    count the client tracks when the generator is advanced, with
    [next_move] and [score] read from entry 0; the generator stays in
    structured mode and the count is left as it was.  The count is 1
    after construction and is what [set_multi_pv] was last given. *)
Theorem structured_snapshot_has_multipv_entries
    (g g' : UCIEngine.generator) (s s' : UCIEngine.state) (it : UCIEngine.item) :
  structured g ->
  UCIEngine.next g s = (Return (Some it, g'), s') ->
  (exists o, it = UCIEngine.Snapshot o /\ structured g' /\
     Z.of_nat (length (lines o)) = multipv s /\
     multipv s' = multipv s /\
     (exists e0, lines o !! 0 = Some e0 /\ e0 !! "next_move" = Some (next_move o) /\
                 e0 !! "score" = Some (score o)) /\
     Forall parsed (lines o)) /\
  (forall value s1 s2,
     UCIEngine.set_multi_pv value s1 = (Return tt, s2) -> multipv s2 = value) /\
  (forall path_exists options_override timeout script b u b',
     UCIEngine.__init__ path_exists options_override timeout script b = (Return u, b') ->
     UCIEngine.current_multi_pv u = 1%Z).
Proof.
  intros Hg H. split; [|split; [exact set_multi_pv_tracks | exact init_multipv]].
  assert (Hpv : multipv s' = multipv s).
  { pose proof (multipv_next g s) as Hm. rewrite H in Hm. exact Hm. }
  assert (Hloop : exists flg s0, multipv s0 = multipv s /\
            UCIEngine.structured_loop flg s0 = (Return (Some it, g'), s')).
  { destruct g as [a|resp|flg nr|]; simpl in Hg; try contradiction.
    - simpl in H. rewrite Hg in H. apply bind_inv in H as ([] & s0 & Hp & H).
      exists true, s0. split; [|exact H].
      pose proof (on_engine_multipv (EngineCore.put (UCIEngine.go_command a)) s) as Hm.
      rewrite Hp in Hm. exact Hm.
    - exists flg, s. split; [reflexivity | exact H]. }
  destruct Hloop as (flg & s0 & Hs0 & Hl).
  apply structured_loop_spec in Hl as (o & -> & Hg' & Hlen & He0 & Hall).
  exists o. split_and!; try assumption; [reflexivity|].
  rewrite <- Hs0. destruct He0 as (e0 & He0 & _).
  apply lookup_lt_Some in He0. lia.
Qed.

Lemma structured_snapshot_has_multipv_entries_witness :
  exists o,
    multipv3_step.1 =
      Return (Some (UCIEngine.Snapshot o), UCIEngine.SuspendedStructured false
                                             (Some "bestmove e2e4 ponder e7e5")) /\
    Z.of_nat (length (lines o)) = 3%Z /\ next_move o = VStr "e2e4" /\
    bestmove o = Some "e2e4".
Proof.
  destruct (structured_snapshot_has_multipv_entries
              (UCIEngine.Created go_default)
              (UCIEngine.SuspendedStructured false (Some "bestmove e2e4 ponder e7e5"))
              multipv3_client multipv3_step.2
              (UCIEngine.Snapshot
                 {| next_move := VStr "e2e4";
                    score := VDict {[ "mate" := VNone; "cp" := VInt 25 ]};
                    lines := multipv3_lines;
                    bestmove := Some "e2e4"; ponder := Some "e7e5" |})
              eq_refl) as [(o & Ho & _ & Hlen & _) _].
  - vm_compute. reflexivity.
  - exists o. inversion Ho; subst o. split; [vm_compute; reflexivity|].
    split; [exact Hlen|]. split; reflexivity.
Defined.

(** ** Position set-up *)

Section Position.
Import EngineCore.

Lemma is_ready_loop_delivers (n : nat) :
  forall (resp : string) (s : state),
    length (incoming s) < n -> "readyok" ∈ resp :: incoming s ->
    pending_chunks s < polls (self s) ->
    exists s', is_ready_loop n resp s = (Return true, s').
Proof.
  induction n as [|n IH]; intros resp s Hn Hin Hp; [lia|]. simpl.
  destruct (String.eqb_spec resp "readyok") as [->|Hne]; [eexists; reflexivity|].
  apply elem_of_cons in Hin as [Heq|Hin]; [congruence|].
  destruct (incoming s) as [|x rest] eqn:Ein; [inversion Hin|].
  destruct (get_delivers s x rest Ein Hp) as (s1 & Hg & Hi & Hc & Hf).
  rewrite (bind_return _ _ _ _ _ Hg). apply IH.
  - rewrite Hi. simpl in Hn. lia.
  - rewrite Hi. exact Hin.
  - apply frame_eq in Hf as (Ht & _). unfold polls in *. rewrite Ht. lia.
Qed.

(** When a [readyok] is among the incoming lines and the engine writes
    in time, [is_ready] returns. *)
Lemma is_ready_delivers (s : state) :
  "readyok" ∈ incoming s -> pending_chunks s < polls (self s) ->
  exists s', is_ready s = (Return true, s').
Proof.
  intros Hin Hp. unfold is_ready.
  destruct (put_run "isready" s) as (s0 & Hput & Hi0 & _ & Ht0 & _ & Hs0 & _).
  rewrite (bind_return _ _ _ _ _ Hput).
  assert (Hp0 : pending_chunks s0 < polls (self s0))
    by (unfold pending_chunks, polls in *; rewrite Hs0, Ht0; exact Hp).
  destruct (incoming s) as [|x rest] eqn:Ein; [inversion Hin|].
  destruct (get_delivers s0 x rest Hi0 Hp0) as (s1 & Hg & Hi & Hc & Hf).
  rewrite (bind_return _ _ _ _ _ Hg), bind_read.
  apply is_ready_loop_delivers.
  - unfold fuel. lia.
  - rewrite Hi. exact Hin.
  - apply frame_eq in Hf as (Ht & _). unfold polls in *. rewrite Ht. lia.
Qed.

End Position.

Section PositionClient.
Import UCIEngine.

Lemma set_position_command fen moves :
  "position " +:+ match fen with None => "startpos" | Some fen => "fen " +:+ fen end
    +:+ " " +:+ match moves with
                | None => ""
                | Some moves => "moves " +:+ PyStr.join " " moves
                end
  = written_position_command fen moves.
Proof.
  unfold written_position_command. do 2 f_equal.
  destruct moves; reflexivity.
Qed.

Lemma set_position_spec fen moves (s : state) :
  match set_position fen moves s with
  | (Return _, s') =>
      usent s' = usent s ++ [ "ucinewgame" +:+ nl; "isready" +:+ nl;
                              written_position_command fen moves +:+ nl ] /\
      exists pre, uincoming s = pre ++ "readyok" :: uincoming s' /\ "readyok" ∉ pre
  | (Raise e, s') =>
      e = IndexError /\
      usent s' = usent s ++ [ "ucinewgame" +:+ nl; "isready" +:+ nl ]
  | (OutOfFuel, _) => False
  end.
Proof.
  unfold set_position, _ucinewgame. rewrite set_position_command.
  destruct (put_run "ucinewgame" (core_state s)) as (c1 & Hp1 & Hi1 & Hs1 & _).
  destruct (on_engine_run _ s _ _ Hp1) as (s1 & E1 & Hc1).
  rewrite !bind_eq, E1, bind_eq.
  pose proof (is_ready_spec (core_state s1)) as Hr.
  destruct (EngineCore.is_ready (core_state s1)) as [r c2] eqn:E.
  destruct (on_engine_run _ s1 _ _ E) as (s2 & E2 & Hc2). rewrite E2.
  unfold usent, uincoming. rewrite Hc1 in Hr.
  destruct r as [b|e|]; [| | tauto].
  - destruct Hr as (_ & Hs2 & _ & _ & pre & Hpre & Hnot).
    cbv beta iota delta [mret M_ret].
    destruct (put_run (written_position_command fen moves) (core_state s2))
      as (c3 & Hp3 & Hi3 & Hs3 & _).
    destruct (on_engine_run _ s2 _ _ Hp3) as (s3 & E3 & Hc3). rewrite E3.
    rewrite Hc3, Hs3, Hc2, Hs2, Hs1, Hi3, Hc2, <- !app_assoc. split; [reflexivity|].
    exists pre. rewrite <- Hi1. auto.
  - destruct Hr as (He & Hs2 & _). simpl. rewrite Hc2, Hs2, Hs1, <- app_assoc. auto.
Qed.

Lemma set_position_returns fen moves (s : state) :
  "readyok" ∈ uincoming s ->
  pending_chunks (core_state s) < EngineCore.polls (engine (self s)) ->
  exists s', set_position fen moves s = (Return tt, s').
Proof.
  intros Hin Hp. unfold set_position, _ucinewgame.
  destruct (put_run "ucinewgame" (core_state s))
    as (c1 & Hp1 & Hi1 & _ & Ht1 & _ & Ho1 & _).
  destruct (on_engine_run _ s _ _ Hp1) as (s1 & E1 & Hc1).
  rewrite !bind_eq, E1, bind_eq.
  destruct (is_ready_delivers (core_state s1)) as (c2 & E).
  - rewrite Hc1, Hi1. exact Hin.
  - rewrite Hc1. unfold pending_chunks, EngineCore.polls in *. rewrite Ho1, Ht1. exact Hp.
  - destruct (on_engine_run _ s1 _ _ E) as (s2 & E2 & Hc2). rewrite E2. simpl.
    eexists. unfold on_engine. simpl. reflexivity.
Qed.

End PositionClient.

(** C9, as the code has it.  A call of [set_position] that returns has
    written [ucinewgame], [isready] and one position command, in this
    order and nothing else, after reading the lines up to the first
    [readyok]; the position command is [position startpos] or
    [position fen <FEN>], followed by a blank when no move list is given
    and by [moves] and the moves when one is given, also when the list is
    empty.  A call that does not return has raised [IndexError] after
    writing [ucinewgame] and [isready] only.  The call returns whenever a
    [readyok] is to come and the engine writes within the timeout. *)
Theorem set_position_resynchronises_then_writes_position
    (fen : option string) (moves : option (list string)) (s : UCIEngine.state) :
  match UCIEngine.set_position fen moves s with
  | (Return _, s') =>
      usent s' = usent s ++ [ "ucinewgame" +:+ nl; "isready" +:+ nl;
                              written_position_command fen moves +:+ nl ] /\
      exists pre, uincoming s = pre ++ "readyok" :: uincoming s' /\ "readyok" ∉ pre
  | (Raise e, s') =>
      e = IndexError /\ usent s' = usent s ++ [ "ucinewgame" +:+ nl; "isready" +:+ nl ]
  | (OutOfFuel, _) => False
  end /\
  ("readyok" ∈ uincoming s ->
   pending_chunks (UCIEngine.core_state s)
     < EngineCore.polls (UCIEngine.engine (UCIEngine.self s)) ->
   exists s', UCIEngine.set_position fen moves s = (Return tt, s')).
Proof.
  split; [apply set_position_spec | apply set_position_returns].
Qed.

Lemma set_position_resynchronises_then_writes_position_witness :
  exists s',
    UCIEngine.set_position (Some "8/8/8/8/8/8/8/K6k w - - 0 1") (Some ["a1a2"; "h1h2"])
      (client_with ["info string late"; "readyok"] 1) = (Return tt, s').
Proof.
  apply (proj2 (set_position_resynchronises_then_writes_position _ _ _)).
  - vm_compute. repeat constructor.
  - vm_compute. lia.
Defined.

(** C9, as stated, fails for an empty move list: the code appends the
    keyword [moves], which the claim allows for a non-empty list only. *)
Lemma set_position_empty_move_list_writes_moves :
  (UCIEngine.set_position None (Some []) (client_with ["readyok"] 1)).1 = Return tt /\
  usent (UCIEngine.set_position None (Some []) (client_with ["readyok"] 1)).2 =
    [ "uci" +:+ nl; "ucinewgame" +:+ nl; "isready" +:+ nl;
      "position startpos moves " +:+ nl ] /\
  ~ set_position_as_stated None (Some []) (client_with ["readyok"] 1).
Proof.
  split; [vm_compute; reflexivity|]. split; [vm_compute; reflexivity|].
  intros H.
  specialize (H (UCIEngine.set_position None (Some []) (client_with ["readyok"] 1)).2).
  vm_compute in H. specialize (H eq_refl). discriminate H.
Qed.

(** ** The search generator *)

Section Lazy.
Import UCIEngine.

Lemma sent_frame {A} (m : M EngineCore.state A) : preserves frame m -> preserves sent m.
Proof. intros H s. specialize (H s). apply frame_eq in H as (_ & H & _). exact H. Qed.

Lemma usent_get : preserves usent (on_engine EngineCore.get).
Proof. apply (on_engine_core sent), sent_frame, get_frame. Qed.

Lemma usent_view i : preserves usent (on_engine (EngineCore.view i)).
Proof. apply (on_engine_core sent), sent_frame, view_frame. Qed.

(** The first advance writes the command, once, before anything else. *)
Lemma first_next_writes_command (a : go_args) (s : state) :
  usent (next (Created a) s).2 = usent s ++ [go_command a +:+ nl].
Proof.
  simpl.
  destruct (put_run (go_command a) (core_state s)) as (c1 & Hp & _ & Hs & _).
  destruct (on_engine_run _ s _ _ Hp) as (s1 & E1 & Hc1).
  rewrite bind_eq, E1.
  assert (Hs1 : usent s1 = usent s ++ [go_command a +:+ nl])
    by (unfold usent; rewrite Hc1; exact Hs).
  rewrite <- Hs1. destruct (raw_output a).
  - apply raw_loop_preserves, usent_get.
  - apply structured_loop_preserves; [apply usent_get | apply usent_view].
Qed.

End Lazy.

(** C10.  Calling [go] returns the generator and leaves the whole state
    of the session as it was: nothing is written to the engine and no
    line is taken from the buffer or the queue.  The [go] command is
    written by the first advance of the generator, whatever that advance
    ends in, and no later advance writes anything. *)
Theorem go_runs_nothing_until_advanced (a : UCIEngine.go_args) (s : UCIEngine.state) :
  UCIEngine.go a s = (Return (UCIEngine.Created a), s) /\
  usent (UCIEngine.next (UCIEngine.Created a) s).2
    = usent s ++ [UCIEngine.go_command a +:+ nl] /\
  (forall g, (forall a', g <> UCIEngine.Created a') ->
             usent (UCIEngine.next g s).2 = usent s).
Proof.
  split; [reflexivity|]. split; [apply first_next_writes_command|].
  intros g Hg. apply (resume_preserves usent); [apply usent_get | apply usent_view | exact Hg].
Qed.

(** The first advance is where lines start to be consumed: in raw mode it
    takes the first buffered line. *)
Example raw_first_next_takes_a_line :
  let raw := {| UCIEngine.depth := Some 12%Z; UCIEngine.wtime := None;
                UCIEngine.btime := None; UCIEngine.winc := None;
                UCIEngine.binc := None; UCIEngine.movetime := Some 100%Z;
                UCIEngine.searchmoves := Some ["e2e4"; "d2d4"];
                UCIEngine.nodes := None; UCIEngine.raw_output := true;
                UCIEngine.kwargs := [("ponder", "on")] |} in
  let s := client_with ["info string a"; "bestmove e2e4"] 1 in
  UCIEngine.output_buffer (UCIEngine.go raw s).2 = ["info string a"; "bestmove e2e4"] /\
  usent (UCIEngine.go raw s).2 = ["uci" +:+ nl] /\
  (UCIEngine.next (UCIEngine.Created raw) s).1
    = Return (Some (UCIEngine.RawLine "info string a"), UCIEngine.SuspendedRaw "info string a") /\
  UCIEngine.output_buffer (UCIEngine.next (UCIEngine.Created raw) s).2 = ["bestmove e2e4"] /\
  usent (UCIEngine.next (UCIEngine.Created raw) s).2 =
    ["uci" +:+ nl; "go depth 12 movetime 100 searchmoves e2e4 d2d4 ponder on" +:+ nl].
Proof. vm_compute. repeat split. Qed.


(** * Further properties of the two files *)

(** ** The buffer, the waits and the reads *)

Section CoreMore.
Import EngineCore.

Lemma wait_loop_enough (short : list string -> bool) (n : nat) (s : state) :
  short (output_buffer s) = false -> wait_loop short n s = (Return tt, s).
Proof.
  intros H. destruct n as [|n]; [reflexivity|]. rewrite wait_loop_S, H. reflexivity.
Qed.

Lemma wait_loop_ext (short1 short2 : list string -> bool) (n : nat) :
  (forall b, short1 b = short2 b) ->
  forall s, wait_loop short1 n s = wait_loop short2 n s.
Proof.
  intros H. induction n as [|n IH]; intros s; [reflexivity|].
  rewrite !wait_loop_S, H, IH. reflexivity.
Qed.

(** With a line in the buffer, [get] pops it at once: it neither sleeps
    nor drains the queue. *)
Lemma get_buffered (s : state) (x : string) (b : list string) :
  output_buffer s = x :: b -> get s = (Return x, set_output_buffer b s).
Proof.
  intros Hb. unfold get, _wait_output_buffer.
  rewrite bind_eq, bind_read, wait_loop_enough by (rewrite Hb; reflexivity).
  rewrite bind_read, Hb. reflexivity.
Qed.

Lemma view_buffered (i : nat) (s : state) (x : string) :
  output_buffer s !! i = Some x -> view i s = (Return x, s).
Proof.
  intros Hb. unfold view, _wait_output_buffer.
  rewrite bind_eq, bind_read, wait_loop_enough.
  - rewrite bind_read, Hb. reflexivity.
  - apply lookup_lt_Some in Hb. apply Nat.leb_gt. exact Hb.
Qed.

Lemma first_split_unique (x : string) (p1 p2 r1 r2 : list string) :
  p1 ++ x :: r1 = p2 ++ x :: r2 -> x ∉ p1 -> x ∉ p2 -> p1 = p2 /\ r1 = r2.
Proof.
  revert p2. induction p1 as [|a p1 IH]; intros [|b p2] H H1 H2; simpl in H.
  - inversion H. auto.
  - inversion H; subst. exfalso. apply H2. apply elem_of_cons. auto.
  - inversion H; subst. exfalso. apply H1. apply elem_of_cons. auto.
  - inversion H; subst. apply not_elem_of_cons in H1 as [_ H1].
    apply not_elem_of_cons in H2 as [_ H2].
    destruct (IH p2 H4 H1 H2) as [-> ->]. auto.
Qed.

End CoreMore.

(** X1.  [view] is a peek: when [view i] returns a line, the line is at
    index [i] of the buffer, no incoming line was consumed and nothing was
    written; and a [get] right after [view 0] returns that same line and
    removes it. *)
Theorem view_then_get_agree (i : nat) (s s' : EngineCore.state) (x : string) :
  EngineCore.view i s = (Return x, s') ->
  EngineCore.output_buffer s' !! i = Some x /\
  EngineCore.incoming s' = EngineCore.incoming s /\ sent s' = sent s /\
  (i = 0 ->
   exists s'', EngineCore.get s' = (Return x, s'') /\
               EngineCore.output_buffer s' = x :: EngineCore.output_buffer s'').
Proof.
  intros H. pose proof (view_spec i s) as Hv. rewrite H in Hv.
  destruct Hv as (Hb & Hi & Hf). apply frame_eq in Hf as (_ & Hs & _).
  split_and!; try assumption. intros ->.
  destruct (EngineCore.output_buffer s') as [|y b] eqn:E; [discriminate|].
  simpl in Hb. injection Hb as ->.
  eexists. split; [apply (get_buffered s' x b E) | reflexivity].
Qed.

Lemma view_then_get_agree_witness :
  exists s'',
    EngineCore.get (EngineCore.view 0 chatty_session).2 = (Return "id name double", s'').
Proof.
  destruct (view_then_get_agree 0 chatty_session (EngineCore.view 0 chatty_session).2
              "id name double") as (_ & _ & _ & H).
  - vm_compute. reflexivity.
  - destruct (H eq_refl) as (s'' & Hg & _). exists s''. exact Hg.
Defined.

(** X2.  A [get] or a [view] that fails has failed with [IndexError], and
    it has lost nothing: every incoming line is still to be read, and
    nothing was written to the engine. *)
Theorem failed_read_loses_no_line (s : EngineCore.state) (i : nat) :
  (forall e s', EngineCore.get s = (Raise e, s') ->
     e = IndexError /\ EngineCore.incoming s' = EngineCore.incoming s /\
     sent s' = sent s) /\
  (forall e s', EngineCore.view i s = (Raise e, s') ->
     e = IndexError /\ EngineCore.incoming s' = EngineCore.incoming s /\
     sent s' = sent s /\ length (EngineCore.output_buffer s') <= i).
Proof.
  split; intros e s' H.
  - pose proof (get_spec s) as Hg. rewrite H in Hg.
    destruct Hg as (He & _ & Hi & Hf). apply frame_eq in Hf as (_ & Hs & _). auto.
  - pose proof (view_spec i s) as Hv. rewrite H in Hv.
    destruct Hv as (He & Hl & Hi & Hf). apply frame_eq in Hf as (_ & Hs & _). auto.
Qed.

(** X3.  With a timeout of 0 the wait loop never runs, so the queue is
    never drained: [get] on an empty buffer raises [IndexError] at once,
    whatever is queued, and leaves the session as it was. *)
Theorem get_with_zero_timeout (s : EngineCore.state) :
  EngineCore.timeout (EngineCore.self s) = 0 ->
  EngineCore.output_buffer s = [] ->
  EngineCore.get s = (Raise IndexError, s).
Proof.
  intros Ht Hb. unfold EngineCore.get, EngineCore._wait_output_buffer.
  rewrite bind_eq, bind_read. unfold EngineCore.polls. rewrite Ht. simpl.
  rewrite bind_read, Hb. reflexivity.
Qed.

Lemma get_with_zero_timeout_witness :
  let s := {| EngineCore.output_buffer := [];
              EngineCore.self :=
                {| EngineCore.timeout := 0;
                   EngineCore.engine := {| stdout := []; stdin := [] |};
                   EngineCore._output_queue := ["readyok"];
                   EngineCore.available_options := None |} |} in
  EngineCore.get s = (Raise IndexError, s).
Proof. intros s. apply get_with_zero_timeout; reflexivity. Defined.

(** ** The handshake and the readiness round trip *)

Section HandshakeMore.
Import EngineCore.

Lemma in_time_frame (s s' : state) :
  frame s' = frame s -> pending_chunks s' <= pending_chunks s ->
  in_time s -> in_time s'.
Proof.
  intros Hf Hc. apply frame_eq in Hf as (Ht & _).
  unfold in_time, polls. rewrite Ht. lia.
Qed.

Lemma in_time_put (message : string) (s : state) :
  in_time s -> in_time (put message s).2.
Proof. destruct s as [b c]. exact id. Qed.

Lemma omap_add_entry (p : string) acc (l : list string) :
  add_entry p acc ++ omap option_entry l = acc ++ omap option_entry (p :: l).
Proof.
  unfold add_entry. simpl. destruct (option_entry p); simpl.
  - rewrite <- app_assoc. reflexivity.
  - reflexivity.
Qed.

(** The handshake loop on lines that arrive in time: the lines before
    the first [uciok] are read, and those that are declarations are
    collected in order. *)
Lemma handshake_loop_run (rest : list string) (pre : list string) :
  forall (resp : string) acc (s : state) (n : nat),
    resp :: incoming s = pre ++ "uciok" :: rest -> "uciok" ∉ pre ->
    length (incoming s) < n -> in_time s ->
    exists s', handshake_loop n resp acc s =
                 (Return (acc ++ omap option_entry pre), s') /\
               incoming s' = rest /\ frame s' = frame s.
Proof.
  induction pre as [|p pre IH]; intros resp acc s n Heq Hnot Hn Ht.
  - simpl in Heq. injection Heq as -> Hin. destruct n as [|n]; [lia|].
    rewrite handshake_loop_S. simpl. rewrite app_nil_r. eauto.
  - simpl in Heq. injection Heq as -> Hin.
    apply not_elem_of_cons in Hnot as [Hne Hnot].
    destruct n as [|n]; [lia|]. rewrite handshake_loop_S.
    destruct (String.eqb_spec p "uciok") as [->|_]; [congruence|].
    destruct (incoming s) as [|x r] eqn:Ein; [destruct pre; discriminate|].
    destruct (get_delivers s x r Ein Ht) as (s1 & Hg & Hi & Hc & Hf).
    rewrite (bind_return _ _ _ _ _ Hg).
    destruct (IH x (add_entry p acc) s1 n) as (s2 & Hl & Hi2 & Hf2).
    + rewrite Hi. exact Hin.
    + exact Hnot.
    + rewrite Hi. simpl in Hn. lia.
    + eapply in_time_frame; eassumption.
    + exists s2. rewrite Hl, omap_add_entry. split; [reflexivity|].
      split; [exact Hi2 | congruence].
Qed.

End HandshakeMore.

(** X4.  The handshake, for any engine output: when a [uciok] arrives in
    time, the handshake writes [uci] and nothing else, reads the lines up
    to and including the first [uciok] and leaves the later ones, and
    [available_options] holds one entry for each line before [uciok] that
    is a declaration, a later declaration of a name replacing an earlier
    one; every other line before [uciok] is ignored. *)
Theorem handshake_collects_declarations
    (s : EngineCore.state) (pre rest : list string) :
  EngineCore.incoming s = pre ++ "uciok" :: rest -> "uciok" ∉ pre -> in_time s ->
  exists s',
    EngineCore.handshake s = (Return tt, s') /\
    opts s' = Some (EngineCore.options_dict (omap EngineCore.option_entry pre)) /\
    EngineCore.incoming s' = rest /\
    sent s' = sent s ++ ["uci" +:+ nl].
Proof.
  intros Hin Hnot Ht. unfold EngineCore.handshake.
  destruct (put_run "uci" s) as (s0 & Hput & Hi0 & Hs0 & _).
  assert (Ht0 : in_time s0).
  { replace s0 with (EngineCore.put "uci" s).2 by (rewrite Hput; reflexivity).
    apply in_time_put, Ht. }
  rewrite (bind_return _ _ _ _ _ Hput).
  destruct (EngineCore.incoming s0) as [|x r] eqn:Ein;
    [rewrite Hin in Hi0; destruct pre; discriminate|].
  destruct (get_delivers s0 x r Ein Ht0) as (s1 & Hg & Hi1 & Hc1 & Hf1).
  rewrite (bind_return _ _ _ _ _ Hg), bind_read.
  destruct (handshake_loop_run rest pre x [] s1 (EngineCore.fuel s1))
    as (s2 & Hl & Hi2 & Hf2).
  - rewrite Hi1, Hi0. exact Hin.
  - exact Hnot.
  - unfold EngineCore.fuel. lia.
  - eapply in_time_frame; eassumption.
  - rewrite (bind_return _ _ _ _ _ Hl). eexists. split; [reflexivity|].
    apply frame_eq in Hf1 as (_ & Hs1 & _). apply frame_eq in Hf2 as (_ & Hs2 & _).
    split_and!.
    + reflexivity.
    + exact Hi2.
    + change (sent s2 = sent s ++ ["uci" +:+ nl]). congruence.
Qed.

Lemma handshake_collects_declarations_witness :
  exists s',
    EngineCore.handshake
      {| EngineCore.output_buffer := [];
         EngineCore.self :=
           EngineCore.spawn 1 [ ["id name double"; "option name Hash type spin default 16"];
                                ["option name Hash type spin default 32"; "uciok"; "late"] ] |}
    = (Return tt, s') /\
    opts s' = Some {[ Some "Hash" := {| EngineCore.type := Some "spin";
                                        EngineCore.default := Some "default 32" |} ]} /\
    EngineCore.incoming s' = ["late"].
Proof.
  edestruct (handshake_collects_declarations
               {| EngineCore.output_buffer := [];
                  EngineCore.self :=
                    EngineCore.spawn 1
                      [ ["id name double"; "option name Hash type spin default 16"];
                        ["option name Hash type spin default 32"; "uciok"; "late"] ] |}
               ["id name double"; "option name Hash type spin default 16";
                "option name Hash type spin default 32"] ["late"])
    as (s' & Hh & Ho & Hi & _).
  - vm_compute. reflexivity.
  - vm_compute. intros H. repeat (inversion H as [|? ? ? H']; clear H; rename H' into H).
  - vm_compute. lia.
  - exists s'. split; [exact Hh|]. split; [|exact Hi]. rewrite Ho. f_equal.
Defined.

(** X5.  [is_ready], for any engine output: when a [readyok] arrives in
    time, the call writes [isready] and nothing else, returns [True], and
    has read the lines up to and including the first [readyok]: every
    line before it is discarded, the lines after it are left to be
    read. *)
Theorem is_ready_discards_until_readyok
    (s : EngineCore.state) (pre rest : list string) :
  EngineCore.incoming s = pre ++ "readyok" :: rest -> "readyok" ∉ pre -> in_time s ->
  exists s',
    EngineCore.is_ready s = (Return true, s') /\
    EngineCore.incoming s' = rest /\
    sent s' = sent s ++ ["isready" +:+ nl].
Proof.
  intros Hin Hnot Ht.
  destruct (is_ready_delivers s) as (s' & Hr).
  - rewrite Hin. apply elem_of_app. right. apply elem_of_cons. auto.
  - exact Ht.
  - exists s'. split; [exact Hr|]. pose proof (is_ready_spec s) as Hs.
    rewrite Hr in Hs. destruct Hs as (_ & Hsent & _ & _ & pre' & Hpre & Hnot').
    rewrite Hin in Hpre.
    destruct (first_split_unique _ _ _ _ _ Hpre Hnot Hnot') as [_ <-]. auto.
Qed.

Lemma is_ready_discards_until_readyok_witness :
  exists s',
    EngineCore.is_ready
      {| EngineCore.output_buffer := ["info string late line of the last search"];
         EngineCore.self := EngineCore.spawn 1 [[]; ["readyok"; "next"]] |}
    = (Return true, s') /\
    EngineCore.incoming s' = ["next"].
Proof.
  edestruct (is_ready_discards_until_readyok
               {| EngineCore.output_buffer := ["info string late line of the last search"];
                  EngineCore.self := EngineCore.spawn 1 [[]; ["readyok"; "next"]] |}
               ["info string late line of the last search"] ["next"])
    as (s' & Hr & Hi & _).
  - vm_compute. reflexivity.
  - vm_compute. intros H. repeat (inversion H as [|? ? ? H']; clear H; rename H' into H).
  - vm_compute. lia.
  - exists s'. auto.
Defined.

(** ** Options *)

Section OptionsMore.
Import UCIEngine.

Lemma setoption_text (name : string) (option : option string) :
  "setoption name " +:+ name +:+ " " +:+
    (if truthy option then "value " +:+ default "" option else "")
  = setoption_line name (default "" option).
Proof.
  destruct option as [[|c v]|]; simpl; try reflexivity.
Qed.

Lemma uput_run (message : string) (s : state) :
  exists s', on_engine (EngineCore.put message) s = (Return tt, s') /\
             usent s' = usent s ++ [message +:+ nl] /\
             uopts s' = uopts s /\ uincoming s' = uincoming s /\
             multipv s' = multipv s /\
             default_option_override (self s') = default_option_override (self s) /\
             (uin_time s -> uin_time s').
Proof.
  destruct (put_run message (core_state s)) as (c & Hp & Hi & Hs & Ht & Ho & Hst & _).
  destruct (on_engine_run _ s _ _ Hp) as (s' & E & Hc).
  exists s'. split; [exact E|]. unfold usent, uopts, uincoming, uin_time, opts.
  rewrite Hc. split_and!; try assumption.
  - pose proof (on_engine_multipv (EngineCore.put message) s) as H.
    rewrite E in H. exact H.
  - unfold on_engine in E. rewrite Hp in E. inversion E. reflexivity.
  - unfold in_time, pending_chunks, EngineCore.polls. rewrite Hst, Ht. exact id.
Qed.

Lemma set_option_run (name : string) (option : option string) (s : state) ao :
  uopts s = Some ao ->
  exists s',
    set_option name option s = (Return tt, s') /\
    (if declared ao name
     then usent s' = usent s ++ [setoption_line name (default "" option) +:+ nl]
     else s' = s) /\
    uopts s' = Some ao /\ uincoming s' = uincoming s /\ multipv s' = multipv s /\
    default_option_override (self s') = default_option_override (self s).
Proof.
  intros Ho. unfold set_option. rewrite bind_read.
  unfold uopts, opts in Ho. simpl in Ho. rewrite Ho. unfold declared.
  destruct (ao !! Some name) as [info|].
  - rewrite setoption_text.
    destruct (uput_run (setoption_line name (default "" option)) s)
      as (s' & E & Hs & Hopt & Hi & Hm & Hd & _).
    exists s'. split; [exact E|]. split_and!; try assumption.
    rewrite Hopt. exact Ho.
  - exists s. split_and!; reflexivity || exact Ho.
Qed.




End OptionsMore.

(** X6.  [set_option] after the handshake: for a name the engine did not
    declare, the call returns and leaves the session exactly as it was
    (nothing is written); for a declared name it writes one line,
    [setoption name <name> value <value>], or [setoption name <name> ]
    with a trailing blank when the value is [None] or empty, and reads
    nothing. *)
Theorem set_option_writes_only_declared
    (name : string) (value : option string) (s : UCIEngine.state)
    (ao : gmap (option string) EngineCore.option_info) :
  uopts s = Some ao ->
  exists s',
    UCIEngine.set_option name value s = (Return tt, s') /\
    (if declared ao name
     then usent s' = usent s ++ [setoption_line name (default "" value) +:+ nl]
     else s' = s) /\
    uopts s' = Some ao /\ uincoming s' = uincoming s /\ multipv s' = multipv s.
Proof.
  intros Ho. destruct (set_option_run name value s ao Ho)
    as (s' & E & Hs & Hopt & Hi & Hm & _).
  exists s'. auto.
Qed.

Lemma set_option_writes_only_declared_witness :
  (exists s', UCIEngine.set_option "Hash" (Some "64") (client_with [] 1) = (Return tt, s') /\
              usent s' = ["uci" +:+ nl; "setoption name Hash value 64" +:+ nl]) /\
  UCIEngine.set_option "Threads" (Some "4") (client_with [] 1)
    = (Return tt, client_with [] 1).
Proof.
  split.
  - destruct (set_option_writes_only_declared "Hash" (Some "64") (client_with [] 1)
                declared_options eq_refl) as (s' & E & Hs & _).
    exists s'. split; [exact E | exact Hs].
  - destruct (set_option_writes_only_declared "Threads" (Some "4") (client_with [] 1)
                declared_options eq_refl) as (s' & E & Hs & _).
    simpl in Hs. rewrite Hs in E. exact E.
Defined.



(** ** Construction of a client *)

Section InitMore.
Import UCIEngine.

Lemma handshake_loop_preserves {X} (f : EngineCore.state -> X) (n : nat) :
  preserves f EngineCore.get ->
  forall resp acc, preserves f (EngineCore.handshake_loop n resp acc).
Proof.
  intros Hget. induction n as [|n IH]; intros resp acc; [apply preserves_out_of_fuel|].
  rewrite handshake_loop_S. destruct (String.eqb resp "uciok"); [apply preserves_ret|].
  apply preserves_bind; [exact Hget | intros; apply IH].
Qed.

(** What a successful construction of an [EngineCore] leaves: the given
    timeout, [uci] as the only text written, and the options assigned. *)
Lemma core_init_spec path_exists timeout script b e b' :
  EngineCore.__init__ path_exists timeout script b = (Return e, b') ->
  EngineCore.timeout e = timeout /\
  stdin (EngineCore.engine e) = ["uci" +:+ nl] /\
  is_Some (EngineCore.available_options e).
Proof.
  unfold EngineCore.__init__. destruct path_exists; [|discriminate].
  set (s0 := {| EngineCore.output_buffer := b;
                EngineCore.self := EngineCore.spawn timeout script |}).
  pose proof (handshake_spec s0 eq_refl) as Hspec.
  assert (Hw : (fun s => (EngineCore.timeout (EngineCore.self s), sent s))
                 (EngineCore.handshake s0).2 = (timeout, ["uci" +:+ nl])).
  { unfold EngineCore.handshake.
    destruct (put_run "uci" s0) as (s1 & Hput & _ & Hs1 & Ht1 & _).
    rewrite (bind_return _ _ _ _ _ Hput).
    assert (Hget : preserves (fun s => (EngineCore.timeout (EngineCore.self s), sent s))
                     EngineCore.get).
    { intros s. pose proof (get_frame s) as Hf.
      apply frame_eq in Hf as (Ht & Hs & _). rewrite Ht, Hs. reflexivity. }
    match goal with
    | |- context [(?m s1).2] =>
        assert (Hp : preserves (fun s => (EngineCore.timeout (EngineCore.self s), sent s)) m)
    end.
    { apply preserves_bind; [exact Hget | intros resp].
      apply preserves_bind; [apply preserves_read | intros s].
      apply preserves_bind; [apply handshake_loop_preserves, Hget | intros l].
      apply preserves_modify. intros [b1 c1]. reflexivity. }
    specialize (Hp s1). cbv beta in Hp. rewrite Hp, Ht1, Hs1. reflexivity. }
  destruct (EngineCore.handshake s0) as [[[]|e1|] s'] eqn:E; try discriminate.
  intros H. inversion H; subst. destruct Hspec as [Ho _].
  simpl in Hw. injection Hw as Ht Hs. auto.
Qed.

Lemma on_engine_override {A} (m : M EngineCore.state A) :
  preserves (fun s => default_option_override (self s)) (on_engine m).
Proof.
  intros s. unfold on_engine. destruct (m (core_state s)) as [r c]. reflexivity.
Qed.

Lemma overrides_run ao (l : list (string * string)) :
  forall s : state,
    uopts s = Some ao ->
    exists r s',
      mapM (fun kv => set_option kv.1 (Some kv.2)) l s = (Return r, s') /\
      usent s' = usent s ++
        map (fun kv => setoption_line kv.1 kv.2 +:+ nl)
            (List.filter (fun kv => declared ao kv.1) l) /\
      uopts s' = Some ao /\ multipv s' = multipv s /\
      default_option_override (self s') = default_option_override (self s).
Proof.
  induction l as [|[name value] l IH]; intros s Ho.
  - exists [], s. rewrite app_nil_r. auto.
  - destruct (set_option_run name (Some value) s ao Ho)
      as (s1 & E & Hs & Ho1 & _ & Hm1 & Hd1).
    destruct (IH s1 Ho1) as (r & s2 & E2 & Hs2 & Ho2 & Hm2 & Hd2).
    exists (tt :: r), s2. split.
    + simpl. change (set_option name (Some value)) with
        (set_option (name, value).1 (Some (name, value).2)) in E.
      rewrite (bind_return _ _ _ _ _ E). rewrite (bind_return _ _ _ _ _ E2). reflexivity.
    + split_and!; try congruence. rewrite Hs2. simpl.
      destruct (declared ao name).
      * simpl in Hs. rewrite Hs, <- app_assoc. reflexivity.
      * subst s1. reflexivity.
Qed.

End InitMore.

(** X8.  A client that was constructed has written [uci] and then one
    [setoption] line for each override whose name the engine declared,
    in the order of the overrides; overrides of undeclared names are
    skipped without an error.  Its MultiPV count is 1 and it keeps the
    overrides and the timeout it was given. *)
Theorem client_init_applies_declared_overrides
    (path_exists : bool) (options_override : option (list (string * string)))
    (timeout : nat) (script : list (list string)) (b b' : list string)
    (u : UCIEngine.t) :
  UCIEngine.__init__ path_exists options_override timeout script b = (Return u, b') ->
  exists ao,
    EngineCore.available_options (UCIEngine.engine u) = Some ao /\
    stdin (EngineCore.engine (UCIEngine.engine u)) =
      ("uci" +:+ nl) ::
      map (fun kv => setoption_line kv.1 kv.2 +:+ nl)
          (List.filter (fun kv => declared ao kv.1) (default [] options_override)) /\
    UCIEngine.current_multi_pv u = 1%Z /\
    UCIEngine.default_option_override u = options_override /\
    UCIEngine.timeout u = timeout /\
    EngineCore.timeout (UCIEngine.engine u) = timeout.
Proof.
  unfold UCIEngine.__init__. destruct path_exists; [|discriminate].
  destruct (EngineCore.__init__ true timeout script b) as [[e| |] b1] eqn:Ec;
    try discriminate.
  apply core_init_spec in Ec as (Ht & Hs & [ao Ho]).
  set (s0 := {| UCIEngine.output_buffer := b1; UCIEngine.self := _ |}).
  destruct (overrides_run ao (default [] options_override) s0 Ho)
    as (r & s1 & E & Hs1 & Ho1 & Hm1 & Hd1).
  pose proof (mapM_preserves (fun s => UCIEngine.timeout (UCIEngine.self s))
                (fun kv => UCIEngine.set_option kv.1 (Some kv.2))
                (default [] options_override)) as Hto.
  pose proof (mapM_preserves (fun s => EngineCore.timeout (UCIEngine.engine (UCIEngine.self s)))
                (fun kv => UCIEngine.set_option kv.1 (Some kv.2))
                (default [] options_override)) as Hte.
  specialize (Hto ltac:(intros kv; apply set_option_preserves; intros m [bb uu]; reflexivity) s0).
  specialize (Hte ltac:(intros kv; apply set_option_preserves; intros m [bb uu]; reflexivity) s0).
  rewrite E in Hto, Hte. rewrite E. intros H. inversion H; subst.
  exists ao. split_and!; try assumption.
  unfold usent, sent in Hs1. simpl in Hs1. rewrite Hs1, Hs. reflexivity.
Qed.

Lemma client_init_applies_declared_overrides_witness :
  exists u b',
    UCIEngine.__init__ true (Some [("Threads", "4"); ("Hash", "64"); ("MultiPV", "")]) 1
      [["option name Hash type spin default 16";
        "option name MultiPV type spin default 1"; "uciok"]] []
    = (Return u, b') /\
    stdin (EngineCore.engine (UCIEngine.engine u)) =
      ["uci" +:+ nl; "setoption name Hash value 64" +:+ nl;
       "setoption name MultiPV " +:+ nl].
Proof.
  destruct (UCIEngine.__init__ true (Some [("Threads", "4"); ("Hash", "64"); ("MultiPV", "")]) 1
      [["option name Hash type spin default 16";
        "option name MultiPV type spin default 1"; "uciok"]] []) as [r b'] eqn:E.
  assert (Hr : exists u, r = Return u) by (vm_compute in E; inversion E; eauto).
  destruct Hr as [u ->]. exists u, b'. split; [reflexivity|].
  destruct (client_init_applies_declared_overrides _ _ _ _ _ _ _ E) as (ao & Ho & Hs & _).
  rewrite Hs. vm_compute in E. inversion E; subst. simpl in Ho. inversion Ho; subst.
  vm_compute. reflexivity.
Defined.

(** ** The [go] command *)

Section GoCommand.
Import UCIEngine.

Lemma filter_int_param (name : string) (x : option Z) :
  nonempty name = true ->
  List.filter nonempty [int_param name x] = supplied name x.
Proof.
  intros Hn. destruct x as [n|]; simpl; [|reflexivity].
  destruct name; [discriminate | reflexivity].
Qed.

Lemma filter_kwargs (kwargs : list (string * string)) :
  List.filter nonempty (map (fun kv => kv.1 +:+ " " +:+ kv.2) kwargs)
  = map (fun kv => kv.1 +:+ " " +:+ kv.2) kwargs.
Proof.
  induction kwargs as [|[k v] l IH]; [reflexivity|]. simpl. rewrite IH.
  destruct k; reflexivity.
Qed.

End GoCommand.

(** X9.  The [go] command is [go] followed by its parts joined by single
    blanks: [infinite] or [depth <n>] first, then, for each of [wtime],
    [btime], [winc], [binc], [movetime], [searchmoves] and [nodes] that
    is given, its name and value, in this order, then the extra
    arguments in call order.  A parameter that is not given leaves no
    token and no blank; a depth of 0 is a depth, not an infinite search;
    an empty [searchmoves] list still leaves its keyword. *)
Theorem go_command_has_only_supplied_parts (a : UCIEngine.go_args) :
  UCIEngine.go_command a = "go " +:+ PyStr.join " " (go_parts a).
Proof.
  unfold UCIEngine.go_command, go_parts. do 2 f_equal.
  match goal with
  | |- List.filter _ ([?d; ?w; ?b; ?wi; ?bi; ?m; ?sm; ?n] ++ ?k) = _ =>
      change ([d; w; b; wi; bi; m; sm; n] ++ k)
        with ([d] ++ [w] ++ [b] ++ [wi] ++ [bi] ++ [m] ++ [sm] ++ [n] ++ k)
  end.
  rewrite !List.filter_app, !filter_int_param, filter_kwargs by reflexivity.
  f_equal; [destruct (UCIEngine.depth a); reflexivity|].
  do 5 f_equal. destruct (UCIEngine.searchmoves a); reflexivity.
Qed.

(** Instances of the edge cases: nothing given, a depth of 0, and an
    empty [searchmoves] list between two other parameters. *)
Example go_command_edge_cases :
  UCIEngine.go_command go_default = "go infinite" /\
  UCIEngine.go_command
    {| UCIEngine.depth := Some 0%Z; UCIEngine.wtime := None; UCIEngine.btime := None;
       UCIEngine.winc := None; UCIEngine.binc := None; UCIEngine.movetime := Some 50%Z;
       UCIEngine.searchmoves := Some []; UCIEngine.nodes := Some (-1)%Z;
       UCIEngine.raw_output := false; UCIEngine.kwargs := [] |}
    = "go depth 0 movetime 50 searchmoves  nodes -1".
Proof. split; vm_compute; reflexivity. Qed.

(** ** What a parsed info line holds *)

Section ParseMore.
Import UCIEngine.

Lemma obind_inv {A B} (r : result A) (f : A -> result B) (b : B) :
  obind r f = Ok b -> exists a, r = Ok a /\ f a = Ok b.
Proof. destruct r as [a|e]; simpl; [eauto | discriminate]. Qed.

Lemma or_raise_inv {A} (e : exn) (o : option A) (a : A) :
  or_raise e o = Ok a -> o = Some a.
Proof. destruct o; simpl; congruence. Qed.

Lemma insert_present (d : gmap string value) (k k' : string) (v : value) :
  is_Some (d !! k) -> is_Some (<[k' := v]> d !! k).
Proof.
  intros H. destruct (decide (k' = k)) as [->|Hne].
  - rewrite lookup_insert_eq. eauto.
  - rewrite lookup_insert_ne by exact Hne. exact H.
Qed.

(** Storing the telemetry pairs removes no key. *)
Lemma store_pairs_present (k : string) (n : nat) :
  forall (l : list string) (d d' : gmap string value),
    length l <= n -> store_pairs l d = Ok d' ->
    is_Some (d !! k) -> is_Some (d' !! k).
Proof.
  induction n as [|n IH]; intros l d d' Hn H Hk.
  - destruct l; [|simpl in Hn; lia]. simpl in H. congruence.
  - destruct l as [|a [|b l]]; simpl in H; [congruence | discriminate |].
    eapply (IH l); [simpl in Hn; lia | exact H | apply insert_present, Hk].
Qed.

Lemma coerce_keys_present (k : string) (keys : list string) :
  forall d d' : gmap string value,
    coerce_keys keys d = Ok d' -> is_Some (d !! k) -> is_Some (d' !! k).
Proof.
  induction keys as [|key keys IH]; intros d d' H Hk; simpl in H; [congruence|].
  apply obind_inv in H as (x & _ & H). apply obind_inv in H as (n & _ & H).
  eapply IH; [exact H | apply insert_present, Hk].
Qed.

Lemma coerce_keys_keeps_int (k : string) (n : Z) (keys : list string) :
  forall d d' : gmap string value,
    coerce_keys keys d = Ok d' -> d !! k = Some (VInt n) -> d' !! k = Some (VInt n).
Proof.
  induction keys as [|key keys IH]; intros d d' H Hk; simpl in H; [congruence|].
  apply obind_inv in H as (x & Hx & H). apply obind_inv in H as (m & Hm & H).
  apply or_raise_inv in Hx. eapply IH; [exact H|].
  destruct (decide (key = k)) as [->|Hne].
  - rewrite Hk in Hx. injection Hx as <-. simpl in Hm. injection Hm as <-.
    apply lookup_insert_eq.
  - rewrite lookup_insert_ne by exact Hne. exact Hk.
Qed.

Lemma coerce_keys_int (keys : list string) :
  forall (d d' : gmap string value) (k : string),
    coerce_keys keys d = Ok d' -> k ∈ keys -> exists n, d' !! k = Some (VInt n).
Proof.
  induction keys as [|key keys IH]; intros d d' k H Hin; [inversion Hin|].
  simpl in H. apply obind_inv in H as (x & Hx & H). apply obind_inv in H as (m & Hm & H).
  apply elem_of_cons in Hin as [->|Hin].
  - exists m. eapply coerce_keys_keeps_int; [exact H | apply lookup_insert_eq].
  - eapply IH; eassumption.
Qed.

Lemma parse_info_keys (text : string) (d : gmap string value) :
  parse_info text = Ok (Some d) ->
  is_Some (d !! "score") /\ is_Some (d !! "moves") /\ is_Some (d !! "next_move") /\
  forall key, key ∈ ["depth"; "seldepth"; "multipv"; "time"] ->
              exists n, d !! key = Some (VInt n).
Proof.
  unfold parse_info. destruct (Re.match_ RE_PARSE_INFO text) as [m|]; [|discriminate].
  intros H.
  apply obind_inv in H as (g2 & _ & H). apply obind_inv in H as (g4 & _ & H).
  apply obind_inv in H as (g1 & _ & H). apply obind_inv in H as (g3 & _ & H).
  apply obind_inv in H as (pv0 & _ & H). apply obind_inv in H as (score0 & _ & H).
  apply obind_inv in H as (score1 & _ & H). apply obind_inv in H as (n & _ & H).
  apply obind_inv in H as (t1 & H1 & H). apply obind_inv in H as (t2 & H2 & H).
  apply obind_inv in H as (t3 & H3 & H). injection H as <-.
  assert (Hkeys : forall k, k ∈ ["score"; "moves"; "next_move"] -> is_Some (t1 !! k)).
  { intros k Hk. unfold store_score in H1.
    rewrite lookup_insert_eq in H1. injection H1 as <-.
    apply insert_present.
    repeat (apply elem_of_cons in Hk as [->|Hk]); [| | | inversion Hk].
    - rewrite lookup_insert_eq. eauto.
    - rewrite lookup_insert_ne, lookup_insert_eq by discriminate. eauto.
    - rewrite !lookup_insert_ne, lookup_singleton_eq by discriminate. eauto. }
  assert (Hkeep : forall k, k ∈ ["score"; "moves"; "next_move"] -> is_Some (t3 !! k)).
  { intros k Hk. eapply coerce_keys_present; [exact H3|].
    eapply store_pairs_present; [reflexivity | exact H2 | apply Hkeys, Hk]. }
  split_and!.
  - apply Hkeep. set_solver.
  - apply Hkeep. set_solver.
  - apply Hkeep. set_solver.
  - intros key Hk. eapply coerce_keys_int; eassumption.
Qed.

End ParseMore.

(** X10.  Every dictionary that [parse_info] returns has the keys
    [score], [moves] and [next_move], and its [depth], [seldepth],
    [multipv] and [time] are integers: a line for which one of the four
    is missing or is not a number yields no dictionary. *)
Theorem parsed_info_has_keys_and_integer_fields
    (text : string) (d : gmap string value) :
  UCIEngine.parse_info text = Ok (Some d) ->
  is_Some (d !! "score") /\ is_Some (d !! "moves") /\ is_Some (d !! "next_move") /\
  (exists n, d !! "depth" = Some (VInt n)) /\
  (exists n, d !! "seldepth" = Some (VInt n)) /\
  (exists n, d !! "multipv" = Some (VInt n)) /\
  (exists n, d !! "time" = Some (VInt n)).
Proof.
  intros H. apply parse_info_keys in H as (H1 & H2 & H3 & H4).
  split_and!; try assumption; apply H4; set_solver.
Qed.

Lemma parsed_info_has_keys_and_integer_fields_witness :
  exists d, UCIEngine.parse_info info_line = Ok (Some d) /\
            exists n, d !! "seldepth" = Some (VInt n).
Proof.
  destruct (UCIEngine.parse_info info_line) as [[d|]|e] eqn:E;
    try (vm_compute in E; discriminate E).
  exists d. split; [reflexivity|].
  apply (parsed_info_has_keys_and_integer_fields info_line d E).
Defined.

(** ** The matcher: where a result comes from *)

Section Matcher.
Import Re.

Lemma or_else_Some {A} (x y : option A) (a : A) :
  or_else x y = Some a -> x = Some a \/ y = Some a.
Proof. destruct x; simpl; auto. Qed.

(** A result of [rep] is a result of its continuation, on the spans that
    [rep] was given. *)
Lemma rep_from_cont (cs : charset) (greedy : bool) (k : cont) (g g' : spans) :
  forall (s : string) (lo : nat) (hi : option nat) (pos : nat),
    rep cs greedy lo hi pos s g k = Some g' ->
    exists pos' s', k pos' s' g = Some g'.
Proof.
  induction s as [|c s IH]; intros lo hi pos H; simpl in H.
  - destruct (hi_zero hi), (lo =? 0); try discriminate; eauto.
  - destruct (hi_zero hi); [destruct (lo =? 0); [eauto | discriminate]|].
    destruct (mem cs c); [|destruct (lo =? 0); [eauto | discriminate]].
    destruct greedy; apply or_else_Some in H as [H|H];
      try (apply IH in H; exact H);
      destruct (lo =? 0); try discriminate; eauto.
Qed.

(** Whatever holds of every result of the continuation holds of every
    result of the match. *)
Lemma run_post (Q : spans -> Prop) (r : regex) :
  forall (k : cont) (pos : nat) (s : string) (g g' : spans),
    (forall pos' s' g1 g2, k pos' s' g1 = Some g2 -> Q g2) ->
    run r pos s g k = Some g' -> Q g'.
Proof.
  induction r as [l|cs lo hi greedy|r1 IH1 r2 IH2|r1 IH1 r2 IH2|r1 IH1|n r1 IH1| |];
    intros k pos s g g' Hk H; simpl in H.
  - destruct (strip_prefix l s); [eauto | discriminate].
  - apply rep_from_cont in H as (pos' & s' & H). eauto.
  - eapply IH1; [|exact H]. intros pos' s' g1 g2 H2. simpl in H2.
    eapply IH2; [exact Hk | exact H2].
  - apply or_else_Some in H as [H|H]; eauto.
  - apply or_else_Some in H as [H|H]; eauto.
  - eapply IH1; [|exact H]. intros pos' s' g1 g2 H2. simpl in H2. eauto.
  - destruct (pos =? 0); [eauto | discriminate].
  - destruct (at_end s); [eauto | discriminate].
Qed.

(** A property of the spans that recording a group keeps, and that the
    continuation keeps, is kept by the match. *)
Lemma run_keeps (I : spans -> Prop) (r : regex) :
  (forall n v g, I g -> I (<[n := v]> g)) ->
  forall (k : cont) (pos : nat) (s : string) (g g' : spans),
    (forall pos' s' g1 g2, k pos' s' g1 = Some g2 -> I g1 -> I g2) ->
    run r pos s g k = Some g' -> I g -> I g'.
Proof.
  intros Hins.
  induction r as [l|cs lo hi greedy|r1 IH1 r2 IH2|r1 IH1 r2 IH2|r1 IH1|n r1 IH1| |];
    intros k pos s g g' Hk H Hg; simpl in H.
  - destruct (strip_prefix l s); [eauto | discriminate].
  - apply rep_from_cont in H as (pos' & s' & H). eauto.
  - eapply IH1; [|exact H|exact Hg]. intros pos' s' g1 g2 H2 Hg1. simpl in H2.
    eapply IH2; [exact Hk | exact H2 | exact Hg1].
  - apply or_else_Some in H as [H|H]; eauto.
  - apply or_else_Some in H as [H|H]; eauto.
  - eapply IH1; [|exact H|exact Hg]. intros pos' s' g1 g2 H2 Hg1. simpl in H2. eauto.
  - destruct (pos =? 0); [eauto | discriminate].
  - destruct (at_end s); [eauto | discriminate].
Qed.

Lemma run_seq_post (Q : spans -> Prop) (r1 r2 : regex) (k : cont)
    (pos : nat) (s : string) (g g' : spans) :
  (forall pos' s' g1 g2, run r2 pos' s' g1 k = Some g2 -> Q g2) ->
  run (Seq r1 r2) pos s g k = Some g' -> Q g'.
Proof. intros H2 H. simpl in H. eapply (run_post Q r1); [|exact H]. exact H2. Qed.

(** After a group, the match has a span for it, if what follows keeps
    it. *)
Lemma run_group_then (n : nat) (r1 r2 : regex) (k : cont)
    (pos : nat) (s : string) (g g' : spans) :
  (forall pos' s' g1 g2,
     k pos' s' g1 = Some g2 -> is_Some (g1 !! n) -> is_Some (g2 !! n)) ->
  run (Seq (Group n r1) r2) pos s g k = Some g' -> is_Some (g' !! n).
Proof.
  intros Hk H. simpl in H.
  eapply (run_post (fun g => is_Some (g !! n)) r1); [|exact H].
  intros pos' s' g1 g2 H2. simpl in H2.
  eapply (run_keeps (fun g => is_Some (g !! n)) r2); [|exact Hk|exact H2|].
  - unfold spans. intros m v g0 [x Hx]. destruct (decide (m = n)) as [->|Hne].
    + rewrite lookup_insert_eq. eauto.
    + rewrite lookup_insert_ne by exact Hne. eauto.
  - unfold spans in *. rewrite lookup_insert_eq. eauto.
Qed.

(** A line that [RE_BEST_MOVE] matches has its first group. *)
Lemma best_move_has_move (resp : string) (best : option string * option string) :
  UCIEngine.best_move resp = Ok best -> is_Some best.1.
Proof.
  unfold UCIEngine.best_move, match_.
  destruct (run RE_BEST_MOVE 0 resp ∅ _) as [g|] eqn:E; simpl; [|discriminate].
  intros H. injection H as <-. simpl. unfold group. simpl.
  assert (Hg : is_Some (g !! 1)).
  { unfold RE_BEST_MOVE in E. cbv [seq] in E.
    revert E. apply (run_seq_post (fun g => is_Some (g !! 1))). intros pos1 s1 g1 g2.
    apply (run_seq_post (fun g => is_Some (g !! 1))).
    clear pos1 s1 g1 g2. intros pos1 s1 g1 g2.
    apply run_group_then.
    unfold spans. intros pos' s' g3 g4 H4 [x Hx]. injection H4 as <-.
    rewrite lookup_insert_ne by discriminate. eauto. }
  destruct Hg as [[a b] ->]. simpl. eauto.
Qed.

End Matcher.

(** ** The last snapshot of a search *)

Section Terminal.
Import UCIEngine.

Lemma structured_next_is_loop (g g' : generator) (s s' : state) (it : item) :
  structured g -> next g s = (Return (Some it, g'), s') ->
  exists flg s0, structured_loop flg s0 = (Return (Some it, g'), s').
Proof.
  intros Hg H. destruct g as [a|resp|flg nr|]; simpl in Hg; try contradiction.
  - simpl in H. rewrite Hg in H. apply bind_inv in H as ([] & s0 & _ & H). eauto.
  - simpl in H. eauto.
Qed.

Lemma pure_result_inv {A} (r : result A) (s s' : state) (a : A) :
  pure_outcome r s = (Return a, s') -> r = Ok a /\ s' = s.
Proof. unfold pure_outcome. destruct r; intros H; inversion H; auto. Qed.

Lemma structured_loop_terminal (flg : bool) (s s' : state) (it : item) (g' : generator) :
  structured_loop flg s = (Return (Some it, g'), s') ->
  exists o flg' nr,
    it = Snapshot o /\ g' = SuspendedStructured flg' nr /\
    (flg' = false <-> is_Some (bestmove o)) /\
    (bestmove o = None -> ponder o = None).
Proof.
  unfold structured_loop. destruct flg; simpl; [|discriminate].
  rewrite bind_read. intros H.
  apply bind_inv in H as (l & s1 & _ & H).
  apply bind_inv in H as (e0 & s2 & _ & H).
  apply bind_inv in H as (nm & s3 & _ & H).
  apply bind_inv in H as (sc & s4 & _ & H).
  apply bind_inv in H as (next_resp & s5 & _ & H).
  destruct (PyStr.contains "bestmove" next_resp).
  - apply bind_inv in H as (resp & s6 & _ & H).
    apply bind_inv in H as (best & s7 & Hb & H).
    apply pure_result_inv in Hb as [Hb ->]. apply best_move_has_move in Hb.
    inversion H; subst. eexists _, false, _. split_and!; try reflexivity; simpl.
    + tauto.
    + intros Hn. rewrite Hn in Hb. destruct Hb; discriminate.
  - inversion H; subst. eexists _, true, _. split_and!; try reflexivity; simpl.
    split; [discriminate | intros [x Hx]; discriminate].
Qed.

End Terminal.

(** X11.  In structured mode a snapshot carries a best move exactly when
    it is the last one: the generator is left with [continue_flg] false
    if and only if [bestmove] is set, a snapshot without a best move has
    no ponder move either, and after the snapshot with the best move the
    next advance stops the iteration, reading and writing nothing. *)
Theorem snapshot_is_last_iff_it_has_bestmove
    (g g' : UCIEngine.generator) (s s' : UCIEngine.state) (it : UCIEngine.item) :
  structured g ->
  UCIEngine.next g s = (Return (Some it, g'), s') ->
  exists o continue_flg next_resp,
    it = UCIEngine.Snapshot o /\
    g' = UCIEngine.SuspendedStructured continue_flg next_resp /\
    (continue_flg = false <-> is_Some (bestmove o)) /\
    (bestmove o = None -> ponder o = None) /\
    (continue_flg = false ->
     forall s2, UCIEngine.next g' s2 = (Return (None, UCIEngine.Finished), s2)).
Proof.
  intros Hg H. apply structured_next_is_loop in H as (flg & s0 & H); [|exact Hg].
  apply structured_loop_terminal in H as (o & flg' & nr & -> & -> & Hiff & Hp).
  exists o, flg', nr. split_and!; try assumption; try reflexivity.
  intros -> s2. reflexivity.
Qed.

Lemma snapshot_is_last_iff_it_has_bestmove_witness :
  exists o,
    multipv3_step.1 =
      Return (Some (UCIEngine.Snapshot o),
              UCIEngine.SuspendedStructured false (Some "bestmove e2e4 ponder e7e5")) /\
    is_Some (bestmove o).
Proof.
  destruct (snapshot_is_last_iff_it_has_bestmove
              (UCIEngine.Created go_default)
              (UCIEngine.SuspendedStructured false (Some "bestmove e2e4 ponder e7e5"))
              multipv3_client multipv3_step.2
              (UCIEngine.Snapshot
                 {| next_move := VStr "e2e4";
                    score := VDict {[ "mate" := VNone; "cp" := VInt 25 ]};
                    lines := multipv3_lines;
                    bestmove := Some "e2e4"; ponder := Some "e7e5" |})
              eq_refl) as (o & flg & nr & Ho & Hg & Hiff & _).
  - vm_compute. reflexivity.
  - exists o. inversion Ho; subst o. split; [vm_compute; reflexivity|].
    simpl. eauto.
Defined.

(** ** Reading the lines of a search *)

Section SearchRun.
Import UCIEngine.

(** A [view 0] whose line arrives in time returns it and leaves it. *)
Lemma view0_delivers (s : EngineCore.state) (x : string) (rest : list string) :
  EngineCore.incoming s = x :: rest -> in_time s ->
  exists s', EngineCore.view 0 s = (Return x, s') /\
             EngineCore.incoming s' = x :: rest /\
             pending_chunks s' <= pending_chunks s /\ frame s' = frame s.
Proof.
  intros Hin Ht.
  assert (Hne : EngineCore.incoming s <> []) by (rewrite Hin; discriminate).
  pose proof (wait_loop_delivers _ s Hne Ht) as [Hb Hc].
  destruct (wait_run (Some 0) s) as (s1 & Hw & Hi & Hf).
  assert (Hs1 : (EngineCore.wait_loop (fun b => length b =? 0)
                   (EngineCore.polls (EngineCore.self s)) s).2 = s1).
  { unfold EngineCore._wait_output_buffer in Hw. rewrite bind_read in Hw.
    rewrite (wait_loop_ext _ (fun b => length b <=? 0)), Hw; [reflexivity|].
    intros [|y b]; reflexivity. }
  cbv zeta in Hb, Hc. rewrite Hs1 in Hb, Hc.
  unfold EngineCore.view. rewrite (bind_return _ _ _ _ _ Hw), bind_read.
  destruct (EngineCore.output_buffer s1) as [|y b] eqn:Eb; [congruence|].
  assert (y = x) as ->.
  { rewrite Hin in Hi. unfold EngineCore.incoming in Hi. rewrite Eb in Hi.
    simpl in Hi. congruence. }
  exists s1. simpl. split_and!; try assumption; try reflexivity. congruence.
Qed.

Lemma uget_delivers (s : state) (x : string) (rest : list string) :
  uincoming s = x :: rest -> uin_time s ->
  exists s', on_engine EngineCore.get s = (Return x, s') /\
             uincoming s' = rest /\ uin_time s' /\
             usent s' = usent s /\ multipv s' = multipv s.
Proof.
  intros Hin Ht.
  destruct (get_delivers (core_state s) x rest Hin Ht) as (c & Hg & Hi & Hc & Hf).
  destruct (on_engine_run _ s _ _ Hg) as (s' & E & Hcs).
  exists s'. split; [exact E|]. unfold uincoming, uin_time, usent. rewrite Hcs.
  split_and!.
  - exact Hi.
  - eapply in_time_frame; eassumption.
  - apply frame_eq in Hf as (_ & Hs & _). exact Hs.
  - pose proof (on_engine_multipv EngineCore.get s) as H. rewrite E in H. exact H.
Qed.

Lemma uview_delivers (s : state) (x : string) (rest : list string) :
  uincoming s = x :: rest -> uin_time s ->
  exists s', on_engine (EngineCore.view 0) s = (Return x, s') /\
             uincoming s' = x :: rest /\ uin_time s' /\
             usent s' = usent s /\ multipv s' = multipv s.
Proof.
  intros Hin Ht.
  destruct (view0_delivers (core_state s) x rest Hin Ht) as (c & Hg & Hi & Hc & Hf).
  destruct (on_engine_run _ s _ _ Hg) as (s' & E & Hcs).
  exists s'. split; [exact E|]. unfold uincoming, uin_time, usent. rewrite Hcs.
  split_and!.
  - exact Hi.
  - eapply in_time_frame; eassumption.
  - apply frame_eq in Hf as (_ & Hs & _). exact Hs.
  - pose proof (on_engine_multipv (EngineCore.view 0) s) as H. rewrite E in H. exact H.
Qed.

(** The raw loop on lines that arrive in time. *)
Lemma raw_run (b : string) (rest : list string) (pre : list string) :
  forall (resp : string) (s : state) (n : nat),
    no_bestmove resp -> Forall no_bestmove pre ->
    PyStr.contains "bestmove" b = true ->
    uincoming s = pre ++ b :: rest -> uin_time s -> length pre + 2 <= n ->
    exists s', exhaust n (SuspendedRaw resp) s
                 = (Return (RawLine <$> (pre ++ [b])), s') /\
               uincoming s' = rest /\ usent s' = usent s.
Proof.
  induction pre as [|p pre IH]; intros resp s n Hresp Hpre Hb Hin Ht Hn.
  - destruct n as [|[|n]]; [simpl in Hn; lia..|].
    destruct (uget_delivers s b rest Hin Ht) as (s1 & Hg & Hi & Ht1 & Hs & _).
    exists s1. split; [|auto]. unfold exhaust. cbn [next].
    unfold raw_loop at 1. rewrite Hresp.
    rewrite bind_eq, (bind_return _ _ _ _ _ Hg). cbn [mret M_ret fst snd].
    rewrite bind_eq. cbn [next]. unfold raw_loop. rewrite Hb. reflexivity.
  - destruct n as [|n]; [simpl in Hn; lia|].
    apply Forall_cons in Hpre as [Hp Hpre].
    destruct (uget_delivers s p (pre ++ b :: rest) Hin Ht) as (s1 & Hg & Hi & Ht1 & Hs & _).
    destruct (IH p s1 n Hp Hpre Hb Hi Ht1) as (s2 & He & Hi2 & Hs2); [simpl in Hn; lia|].
    exists s2. split; [|split; [exact Hi2 | congruence]].
    change (exhaust (S n) (SuspendedRaw resp)) with
      (r ← next (SuspendedRaw resp);
       match r.1 with
       | Some x => xs ← exhaust n r.2; mret (x :: xs)
       | None => mret []
       end).
    cbn [next]. unfold raw_loop at 1. rewrite Hresp.
    rewrite bind_eq, (bind_return _ _ _ _ _ Hg). cbn [mret M_ret fst snd].
    rewrite (bind_return _ _ _ _ _ He). reflexivity.
Qed.

End SearchRun.

(** X12.  Raw mode is a passthrough up to the best move: when the engine
    writes in time, iterating [go(raw_output=True)] to its end yields the
    incoming lines, unparsed and in order, up to and including the first
    one that contains [bestmove], and then stops; the later lines are
    left to be read and the [go] command is the only text written. *)
Theorem raw_mode_yields_lines_through_bestmove
    (a : UCIEngine.go_args) (s : UCIEngine.state)
    (pre rest : list string) (b : string) (n : nat) :
  UCIEngine.raw_output a = true ->
  Forall no_bestmove pre -> PyStr.contains "bestmove" b = true ->
  uincoming s = pre ++ b :: rest -> uin_time s -> length pre + 2 <= n ->
  exists s',
    exhaust n (UCIEngine.Created a) s
      = (Return (UCIEngine.RawLine <$> (pre ++ [b])), s') /\
    uincoming s' = rest /\
    usent s' = usent s ++ [UCIEngine.go_command a +:+ nl].
Proof.
  intros Hraw Hpre Hb Hin Ht Hn.
  destruct (uput_run (UCIEngine.go_command a) s) as (s0 & Hp & Hs0 & _ & Hi0 & _ & _ & Ht0).
  destruct (raw_run b rest pre "" s0 n eq_refl Hpre Hb) as (s' & He & Hi & Hs);
    [congruence | auto | exact Hn |].
  exists s'. split; [|split; [exact Hi | congruence]].
  destruct n as [|n]; [lia|].
  change (exhaust (S n) (UCIEngine.SuspendedRaw "")) with
    (r ← UCIEngine.next (UCIEngine.SuspendedRaw "");
     match r.1 with
     | Some x => xs ← exhaust n r.2; mret (x :: xs)
     | None => mret []
     end) in He.
  change (exhaust (S n) (UCIEngine.Created a)) with
    (r ← UCIEngine.next (UCIEngine.Created a);
     match r.1 with
     | Some x => xs ← exhaust n r.2; mret (x :: xs)
     | None => mret []
     end).
  cbn [UCIEngine.next] in He |- *. rewrite Hraw.
  rewrite bind_eq in He |- *. rewrite bind_eq, Hp. exact He.
Qed.

Lemma raw_mode_yields_lines_through_bestmove_witness :
  let raw := {| UCIEngine.depth := None; UCIEngine.wtime := None;
                UCIEngine.btime := None; UCIEngine.winc := None;
                UCIEngine.binc := None; UCIEngine.movetime := None;
                UCIEngine.searchmoves := None; UCIEngine.nodes := None;
                UCIEngine.raw_output := true; UCIEngine.kwargs := [] |} in
  exists s',
    exhaust 5 (UCIEngine.Created raw)
      (client_with ["info string a"; info_line; "bestmove e2e4"; "stray"] 1)
    = (Return [UCIEngine.RawLine "info string a"; UCIEngine.RawLine info_line;
               UCIEngine.RawLine "bestmove e2e4"], s') /\
    uincoming s' = ["stray"].
Proof.
  intros raw.
  destruct (raw_mode_yields_lines_through_bestmove raw
              (client_with ["info string a"; info_line; "bestmove e2e4"; "stray"] 1)
              ["info string a"; info_line] ["stray"] "bestmove e2e4" 5)
    as (s' & He & Hi & _).
  - reflexivity.
  - repeat constructor.
  - reflexivity.
  - reflexivity.
  - vm_compute. lia.
  - simpl. lia.
  - exists s'. split; [exact He | exact Hi].
Defined.

(** ** One cycle of the structured search *)

Section Cycle.
Import UCIEngine.

Lemma read_info_run (line : string) (e : gmap string value) (rest : list string)
    (skipped : list string) :
  forall (resp : string) (s : state) (n : nat),
    resp :: uincoming s = skipped ++ line :: rest ->
    Forall noise skipped -> parse_info line = Ok (Some e) ->
    length (uincoming s) < n -> uin_time s ->
    exists s', read_info n resp s = (Return e, s') /\
               uincoming s' = rest /\ uin_time s' /\
               usent s' = usent s /\ multipv s' = multipv s.
Proof.
  induction skipped as [|p skipped IH]; intros resp s n Heq Hsk Hparse Hn Ht.
  - simpl in Heq. injection Heq as -> Hin. destruct n as [|n]; [lia|].
    exists s. rewrite read_info_S, bind_eq. unfold pure_outcome. rewrite Hparse.
    simpl. auto.
  - simpl in Heq. injection Heq as -> Hin. apply Forall_cons in Hsk as [Hp Hsk].
    destruct n as [|n]; [lia|].
    rewrite read_info_S, bind_eq. unfold pure_outcome.
    rewrite (parse_info_no_match p Hp).
    destruct (uincoming s) as [|x r] eqn:Ein; [destruct skipped; discriminate|].
    destruct (uget_delivers s x r Ein Ht) as (s1 & Hg & Hi & Ht1 & Hs1 & Hm1).
    rewrite (bind_return _ _ _ _ _ Hg).
    destruct (IH x s1 n) as (s2 & Hr & Hi2 & Ht2 & Hs2 & Hm2); try assumption.
    + rewrite Hi. exact Hin.
    + rewrite Hi. simpl in Hn. lia.
    + exists s2. split; [exact Hr|]. split_and!; congruence || assumption.
Qed.

Lemma collect_run (rest : list string) (reports : list report) :
  forall (acc : list (gmap string value)) (s : state),
    Forall well_reported reports ->
    uincoming s = report_lines reports ++ rest -> uin_time s ->
    exists s', collect (length reports) acc s = (Return (acc ++ (snd <$> reports)), s') /\
               uincoming s' = rest /\ uin_time s' /\
               usent s' = usent s /\ multipv s' = multipv s.
Proof.
  induction reports as [|[[skipped line] e] reports IH]; intros acc s Hall Hin Ht.
  - exists s. simpl. rewrite app_nil_r. auto.
  - apply Forall_cons in Hall as [[Hsk Hparse] Hall]. simpl in Hsk, Hparse.
    unfold report_lines in Hin. simpl in Hin. fold (report_lines reports) in Hin.
    rewrite <- !app_assoc in Hin. simpl in Hin.
    destruct (uincoming s) as [|x r] eqn:Ein; [destruct skipped; discriminate|].
    destruct (uget_delivers s x r Ein Ht) as (s1 & Hg & Hi & Ht1 & Hs1 & Hm1).
    destruct (read_info_run line e (report_lines reports ++ rest) skipped x s1
                (EngineCore.fuel (core_state s1)))
      as (s2 & Hr & Hi2 & Ht2 & Hs2 & Hm2); try assumption.
    + rewrite Hi. exact Hin.
    + unfold EngineCore.fuel, uincoming. lia.
    + destruct (IH (acc ++ [e]) s2 Hall Hi2 Ht2) as (s3 & Hc & Hi3 & Ht3 & Hs3 & Hm3).
      exists s3. split.
      * simpl length. rewrite collect_S, (bind_return _ _ _ _ _ Hg), bind_read.
        rewrite (bind_return _ _ _ _ _ Hr), Hc. simpl. rewrite <- app_assoc. reflexivity.
      * split_and!; congruence || assumption.
Qed.

(** An advance of a generator that is in a search runs the loop once,
    after writing the command if this is the first advance. *)
Lemma next_in_search (g : generator) (s : state) :
  in_search g ->
  exists s0, next g s = structured_loop true s0 /\
             usent s0 = usent s ++ written_by g /\ uincoming s0 = uincoming s /\
             multipv s0 = multipv s /\ (uin_time s -> uin_time s0).
Proof.
  destruct g as [a|resp|flg nr|]; simpl; try contradiction.
  - intros Hraw. destruct (uput_run (go_command a) s)
      as (s0 & Hp & Hs & _ & Hi & Hm & _ & Ht).
    exists s0. rewrite bind_eq, Hp, Hraw. auto.
  - intros ->. exists s. rewrite app_nil_r. auto.
Qed.

(** The loop up to its peek at the next line. *)
Lemma structured_cycle_run (reports : list report) (nxt : string) (rest : list string)
    (s : state) (e0 : gmap string value) :
  multipv s = Z.of_nat (length reports) -> Forall well_reported reports ->
  (snd <$> reports) !! 0 = Some e0 ->
  uincoming s = report_lines reports ++ nxt :: rest -> uin_time s ->
  exists nm sc s1,
    e0 !! "next_move" = Some nm /\ e0 !! "score" = Some sc /\
    uincoming s1 = nxt :: rest /\ uin_time s1 /\ usent s1 = usent s /\
    structured_loop true s =
      (if PyStr.contains "bestmove" nxt then
         resp ← on_engine EngineCore.get;
         best ← pure_outcome (best_move resp);
         mret (Some (Snapshot {| next_move := nm; score := sc;
                                 lines := snd <$> reports;
                                 bestmove := best.1; ponder := best.2 |}),
               SuspendedStructured false (Some nxt))
       else
         mret (Some (Snapshot {| next_move := nm; score := sc;
                                 lines := snd <$> reports;
                                 bestmove := None; ponder := None |}),
               SuspendedStructured true (Some nxt))) s1.
Proof.
  intros Hm Hall He0 Hin Ht.
  assert (Hparsed : exists line, parse_info line = Ok (Some e0)).
  { destruct reports as [|[[sk line] e] reports']; [discriminate|].
    simpl in He0. injection He0 as <-.
    apply Forall_cons in Hall as [[_ Hp] _]. eauto. }
  destruct Hparsed as [line Hparsed].
  apply parse_info_keys in Hparsed as ([sc Hsc] & _ & [nm Hnm] & _).
  destruct (collect_run (nxt :: rest) reports [] s Hall Hin Ht)
    as (s1 & Hc & Hi1 & Ht1 & Hs1 & Hm1).
  destruct (uview_delivers s1 nxt rest Hi1 Ht1) as (s2 & Hv & Hi2 & Ht2 & Hs2 & Hm2).
  exists nm, sc, s2. split_and!; try assumption; [congruence|].
  unfold structured_loop. cbn [negb]. cbv iota. rewrite bind_read.
  unfold multipv in Hm. rewrite Hm, Nat2Z.id, (bind_return _ _ _ _ _ Hc).
  simpl app. rewrite bind_eq. unfold pure_outcome at 1. rewrite He0. cbn [or_raise].
  rewrite bind_eq. unfold pure_outcome at 1. rewrite Hnm. cbn [or_raise].
  rewrite bind_eq. unfold pure_outcome at 1. rewrite Hsc. cbn [or_raise].
  rewrite (bind_return _ _ _ _ _ Hv). reflexivity.
Qed.

End Cycle.

(** X13.  A cycle of the structured search that is not the last one.
    With MultiPV [N], when the engine writes in time [N] info lines, with
    any lines that the info pattern rejects before each of them, and
    then a line without [bestmove], the advance yields a snapshot whose
    [lines] are the [N] parsed entries in order, with [next_move] and
    [score] of the first, and no best move; the rejected lines are
    consumed, the line after the cycle is only peeked at and is left to
    be read, and nothing is written but the [go] command on the first
    advance. *)
Theorem structured_cycle_skips_rejected_lines
    (g : UCIEngine.generator) (s : UCIEngine.state) (reports : list report)
    (nxt : string) (rest : list string) (e0 : gmap string value) :
  in_search g ->
  multipv s = Z.of_nat (length reports) -> Forall well_reported reports ->
  (snd <$> reports) !! 0 = Some e0 -> no_bestmove nxt ->
  uincoming s = report_lines reports ++ nxt :: rest -> uin_time s ->
  exists nm sc s',
    e0 !! "next_move" = Some nm /\ e0 !! "score" = Some sc /\
    UCIEngine.next g s =
      (Return (Some (UCIEngine.Snapshot
                       {| next_move := nm; score := sc; lines := snd <$> reports;
                          bestmove := None; ponder := None |}),
               UCIEngine.SuspendedStructured true (Some nxt)), s') /\
    uincoming s' = nxt :: rest /\
    usent s' = usent s ++ written_by g.
Proof.
  intros Hg Hm Hall He0 Hnb Hin Ht.
  destruct (next_in_search g s Hg) as (s0 & Hn & Hs0 & Hi0 & Hm0 & Ht0).
  destruct (structured_cycle_run reports nxt rest s0 e0)
    as (nm & sc & s1 & Hnm & Hsc & Hi1 & Ht1 & Hs1 & Hl); try congruence; auto.
  exists nm, sc, s1. rewrite Hn, Hl, Hnb. split_and!; try assumption; try reflexivity.
  congruence.
Qed.

Lemma structured_cycle_skips_rejected_lines_witness :
  exists s',
    UCIEngine.next (UCIEngine.Created go_default)
      (client_with ["id name late banner"; "info string chatter"; info_line;
                    "info depth 11 currmove e2e4"] 1) =
      (Return (Some (UCIEngine.Snapshot
                       {| next_move := VStr "e2e4";
                          score := VDict {[ "mate" := VNone; "cp" := VInt 25 ]};
                          lines := [info_entry];
                          bestmove := None; ponder := None |}),
               UCIEngine.SuspendedStructured true (Some "info depth 11 currmove e2e4")),
       s') /\
    uincoming s' = ["info depth 11 currmove e2e4"].
Proof.
  destruct (structured_cycle_skips_rejected_lines
              (UCIEngine.Created go_default)
              (client_with ["id name late banner"; "info string chatter"; info_line;
                            "info depth 11 currmove e2e4"] 1)
              [(["id name late banner"; "info string chatter"], info_line, info_entry)]
              "info depth 11 currmove e2e4" [] info_entry)
    as (nm & sc & s' & Hnm & Hsc & Hn & Hi & _).
  - reflexivity.
  - reflexivity.
  - repeat constructor; vm_compute; reflexivity.
  - reflexivity.
  - reflexivity.
  - reflexivity.
  - vm_compute. lia.
  - exists s'. split; [|exact Hi]. rewrite Hn.
    vm_compute in Hnm. vm_compute in Hsc. injection Hnm as <-. injection Hsc as <-.
    reflexivity.
Defined.

(** X14.  The last cycle of the structured search.  When the line after
    the [N] info lines contains [bestmove] and the best-move pattern
    matches it, the advance consumes that line too and yields the
    snapshot with the two groups of the pattern as [bestmove] and
    [ponder]; the generator is left with [continue_flg] false. *)
Theorem structured_last_cycle_takes_bestmove
    (g : UCIEngine.generator) (s : UCIEngine.state) (reports : list report)
    (nxt : string) (rest : list string) (e0 : gmap string value)
    (best : option string * option string) :
  in_search g ->
  multipv s = Z.of_nat (length reports) -> Forall well_reported reports ->
  (snd <$> reports) !! 0 = Some e0 ->
  PyStr.contains "bestmove" nxt = true -> UCIEngine.best_move nxt = Ok best ->
  uincoming s = report_lines reports ++ nxt :: rest -> uin_time s ->
  exists nm sc s',
    e0 !! "next_move" = Some nm /\ e0 !! "score" = Some sc /\
    UCIEngine.next g s =
      (Return (Some (UCIEngine.Snapshot
                       {| next_move := nm; score := sc; lines := snd <$> reports;
                          bestmove := best.1; ponder := best.2 |}),
               UCIEngine.SuspendedStructured false (Some nxt)), s') /\
    uincoming s' = rest /\
    usent s' = usent s ++ written_by g.
Proof.
  intros Hg Hm Hall He0 Hb Hbest Hin Ht.
  destruct (next_in_search g s Hg) as (s0 & Hn & Hs0 & Hi0 & Hm0 & Ht0).
  destruct (structured_cycle_run reports nxt rest s0 e0)
    as (nm & sc & s1 & Hnm & Hsc & Hi1 & Ht1 & Hs1 & Hl); try congruence; auto.
  destruct (uget_delivers s1 nxt rest Hi1 Ht1) as (s2 & Hget & Hi2 & _ & Hs2 & _).
  exists nm, sc, s2. rewrite Hn, Hl, Hb, (bind_return _ _ _ _ _ Hget).
  rewrite bind_eq. unfold UCIEngine.pure_outcome. rewrite Hbest.
  split_and!; try assumption; try reflexivity. congruence.
Qed.

Lemma structured_last_cycle_takes_bestmove_witness :
  exists s',
    UCIEngine.next (UCIEngine.SuspendedStructured true None)
      (client_with [info_line; "bestmove e2e4 ponder e7e5"; "stray"] 1) =
      (Return (Some (UCIEngine.Snapshot
                       {| next_move := VStr "e2e4";
                          score := VDict {[ "mate" := VNone; "cp" := VInt 25 ]};
                          lines := [info_entry];
                          bestmove := Some "e2e4"; ponder := Some "e7e5" |}),
               UCIEngine.SuspendedStructured false (Some "bestmove e2e4 ponder e7e5")),
       s') /\
    uincoming s' = ["stray"].
Proof.
  destruct (structured_last_cycle_takes_bestmove
              (UCIEngine.SuspendedStructured true None)
              (client_with [info_line; "bestmove e2e4 ponder e7e5"; "stray"] 1)
              [([], info_line, info_entry)]
              "bestmove e2e4 ponder e7e5" ["stray"] info_entry
              (Some "e2e4", Some "e7e5"))
    as (nm & sc & s' & Hnm & Hsc & Hn & Hi & _).
  - reflexivity.
  - reflexivity.
  - repeat constructor; vm_compute; reflexivity.
  - reflexivity.
  - reflexivity.
  - vm_compute. reflexivity.
  - reflexivity.
  - vm_compute. lia.
  - exists s'. split; [|exact Hi]. rewrite Hn.
    vm_compute in Hnm. vm_compute in Hsc. injection Hnm as <-. injection Hsc as <-.
    reflexivity.
Defined.

(** X15.  The end of a search is detected by the word [bestmove] anywhere
    in the next line, but the line is then read with the best-move
    pattern, which must match at its start.  When the line after the
    info lines contains [bestmove] and the pattern rejects it (as for
    [bestmove (none)], [bestmove 0000], or an info line that mentions the
    word), the advance raises [AttributeError]; the line is consumed and
    no snapshot is yielded for the cycle. *)
Theorem structured_search_fails_on_unmatched_bestmove
    (g : UCIEngine.generator) (s : UCIEngine.state) (reports : list report)
    (nxt : string) (rest : list string) (e0 : gmap string value) :
  in_search g ->
  multipv s = Z.of_nat (length reports) -> Forall well_reported reports ->
  (snd <$> reports) !! 0 = Some e0 ->
  PyStr.contains "bestmove" nxt = true -> Re.match_ RE_BEST_MOVE nxt = None ->
  uincoming s = report_lines reports ++ nxt :: rest -> uin_time s ->
  exists s',
    UCIEngine.next g s = (Raise AttributeError, s') /\
    uincoming s' = rest /\
    usent s' = usent s ++ written_by g.
Proof.
  intros Hg Hm Hall He0 Hb Hno Hin Ht.
  destruct (next_in_search g s Hg) as (s0 & Hn & Hs0 & Hi0 & Hm0 & Ht0).
  destruct (structured_cycle_run reports nxt rest s0 e0)
    as (nm & sc & s1 & Hnm & Hsc & Hi1 & Ht1 & Hs1 & Hl); try congruence; auto.
  destruct (uget_delivers s1 nxt rest Hi1 Ht1) as (s2 & Hget & Hi2 & _ & Hs2 & _).
  exists s2. rewrite Hn, Hl, Hb, (bind_return _ _ _ _ _ Hget).
  rewrite bind_eq. unfold UCIEngine.pure_outcome, UCIEngine.best_move. rewrite Hno.
  split_and!; try assumption; try reflexivity. congruence.
Qed.

Lemma structured_search_fails_on_unmatched_bestmove_witness :
  (exists s',
     UCIEngine.next (UCIEngine.Created go_default)
       (client_with [info_line; "bestmove (none)"] 1) = (Raise AttributeError, s')) /\
  (exists s',
     UCIEngine.next (UCIEngine.Created go_default)
       (client_with [info_line; "info string bestmove is near"; info_line] 1)
     = (Raise AttributeError, s')).
Proof.
  split.
  - destruct (structured_search_fails_on_unmatched_bestmove
                (UCIEngine.Created go_default)
                (client_with [info_line; "bestmove (none)"] 1)
                [([], info_line, info_entry)] "bestmove (none)" [] info_entry)
      as (s' & Hn & _);
      [reflexivity | reflexivity | repeat constructor; vm_compute; reflexivity
      | reflexivity | reflexivity | vm_compute; reflexivity | reflexivity
      | vm_compute; lia | eauto].
  - destruct (structured_search_fails_on_unmatched_bestmove
                (UCIEngine.Created go_default)
                (client_with [info_line; "info string bestmove is near"; info_line] 1)
                [([], info_line, info_entry)] "info string bestmove is near"
                [info_line] info_entry)
      as (s' & Hn & _);
      [reflexivity | reflexivity | repeat constructor; vm_compute; reflexivity
      | reflexivity | reflexivity | vm_compute; reflexivity | reflexivity
      | vm_compute; lia | eauto].
Defined.

(** X16.  A structured search needs a positive MultiPV count: with a
    count of 0 or less (as after [set_multi_pv(0)]) an advance reads no
    line at all and raises [IndexError]; on a first advance the [go]
    command has been written all the same. *)
Theorem structured_search_needs_positive_multipv
    (g : UCIEngine.generator) (s : UCIEngine.state) :
  in_search g -> (multipv s <= 0)%Z ->
  exists s',
    UCIEngine.next g s = (Raise IndexError, s') /\
    uincoming s' = uincoming s /\
    usent s' = usent s ++ written_by g.
Proof.
  intros Hg Hm.
  destruct (next_in_search g s Hg) as (s0 & Hn & Hs0 & Hi0 & Hm0 & _).
  exists s0. rewrite Hn. split_and!; try assumption.
  unfold UCIEngine.structured_loop. cbn [negb]. cbv iota. rewrite bind_read.
  unfold multipv in *. rewrite Hm0. rewrite Z2Nat.nonpos by exact Hm. reflexivity.
Qed.

Lemma structured_search_needs_positive_multipv_witness :
  exists s',
    UCIEngine.next (UCIEngine.Created go_default)
      (client_with [info_line; "bestmove e2e4"] 0) = (Raise IndexError, s') /\
    uincoming s' = [info_line; "bestmove e2e4"].
Proof.
  destruct (structured_search_needs_positive_multipv
              (UCIEngine.Created go_default)
              (client_with [info_line; "bestmove e2e4"] 0))
    as (s' & Hn & Hi & _).
  - reflexivity.
  - vm_compute. discriminate.
  - exists s'. split; [exact Hn | exact Hi].
Defined.

(** X17.  [set_position] keeps no state of its own between calls: two
    calls in a row with the same arguments write the same three lines
    twice, [ucinewgame], [isready] and the position command, and each
    call reads up to a [readyok] of its own, the second one starting
    where the first one stopped. *)
Theorem set_position_twice_resynchronises_twice
    (fen : option string) (moves : option (list string))
    (s s1 s2 : UCIEngine.state) :
  UCIEngine.set_position fen moves s = (Return tt, s1) ->
  UCIEngine.set_position fen moves s1 = (Return tt, s2) ->
  let round := [ "ucinewgame" +:+ nl; "isready" +:+ nl;
                 written_position_command fen moves +:+ nl ] in
  usent s2 = usent s ++ round ++ round /\
  exists pre1 pre2,
    uincoming s = pre1 ++ "readyok" :: pre2 ++ "readyok" :: uincoming s2 /\
    ("readyok" ∉ pre1) /\ ("readyok" ∉ pre2).
Proof.
  intros H1 H2 round.
  pose proof (set_position_spec fen moves s) as Hs1. rewrite H1 in Hs1.
  pose proof (set_position_spec fen moves s1) as Hs2. rewrite H2 in Hs2.
  destruct Hs1 as (Hsent1 & pre1 & Hin1 & Hn1).
  destruct Hs2 as (Hsent2 & pre2 & Hin2 & Hn2).
  split.
  - rewrite Hsent2, Hsent1, <- app_assoc. reflexivity.
  - exists pre1, pre2. rewrite Hin1, Hin2. auto.
Qed.

Lemma set_position_twice_resynchronises_twice_witness :
  let s := client_with ["readyok"; "info string between"; "readyok"; "left"] 1 in
  let s1 := (UCIEngine.set_position None None s).2 in
  let s2 := (UCIEngine.set_position None None s1).2 in
  usent s2 = [ "uci" +:+ nl;
               "ucinewgame" +:+ nl; "isready" +:+ nl; "position startpos " +:+ nl;
               "ucinewgame" +:+ nl; "isready" +:+ nl; "position startpos " +:+ nl ] /\
  uincoming s2 = ["left"].
Proof.
  intros s s1 s2.
  destruct (set_position_twice_resynchronises_twice None None s s1 s2) as [Hs _].
  - vm_compute. reflexivity.
  - vm_compute. reflexivity.
  - split; [exact Hs | vm_compute; reflexivity].
Defined.
